(** * GoTryCatch: the capture / dispatch / cleanup state machine

    A shallow embedding of [gotrycatch.go] (package [gotrycatch]) and of the
    payload records of [errors/errors.go].

    Go code is embedded as follows.
    - A value of type [interface{}] is an [any]: [None] is the nil interface,
      [Some v] a value [v] carrying its dynamic type [type_of v].
    - A [*TryBlock] is a [ptr]: [None] is the nil pointer, [Some p] the address
      of a block in the [heap].  Blocks are updated in place, so all the
      functions of the package act on a shared store.
    - A [func()] that is called is a computation [M unit]: it transforms the
      [world] (the heap of blocks and the state of the client program) and
      either returns or leaves panicking with a payload.
    - A [func()] that is deferred is a [deferred]: run by a panic, it may stop
      that panic with the builtin [recover].
    - [panic], [defer] and [recover] are the combinators [gopanic],
      [with_defer], [defer_recover] and [defer_call]. *)

From stdpp Require Import base option gmap strings list.
From stdpp Require Import pretty.
From Stdlib Require Import ZArith.

(** ** Values and types of the Go program *)

(** What the package needs to know about Go's values: their dynamic types,
    which concrete types implement which interface types, and what the runtime
    turns [panic(nil)] into.  [nil_panic] is [None] up to Go 1.20 (and in any
    module whose [go.mod] declares a version below 1.21, or under
    [GODEBUG=panicnil=1]): [recover()] then returns nil.  From Go 1.21 it is a
    [*runtime.PanicNilError]. *)
Class Universe := {
  val : Type;
  ty : Type;
  iface : Type;
  ty_eq_dec :: EqDecision ty;
  type_of : val → ty;
  implements : ty → iface → bool;
  nil_panic : option val;
}.

(** The type argument [T] of [Catch[T any]]: a concrete type or an interface
    type. *)
Inductive type_arg `{Universe} : Type :=
  | Concrete (t : ty)
  | Interface (i : iface).

Section Model.
Context `{U : Universe} {S : Type}.

(** [interface{}] *)
Definition any : Type := option val.

(** [x != nil] on an interface value. *)
Definition not_nil (x : any) : bool :=
  match x with
  | Some _ => true
  | None => false
  end.

(** Does the dynamic type [t] satisfy the type argument [T]?  Go's type
    assertion [x.(T)] asks for the identical type when [T] is not an interface
    type, and for an implementation of [T] when it is. *)
Definition satisfies (t : ty) (T : type_arg) : bool :=
  match T with
  | Concrete t' => bool_decide (t = t')
  | Interface i => implements t i
  end.

(** [err, ok := x.(T)]: [Some v] when [ok]. *)
Definition type_assert (T : type_arg) (x : any) : option val :=
  match x with
  | None => None
  | Some v => if satisfies (type_of v) T then Some v else None
  end.

(** ** The store *)

(** [type TryBlock struct { err interface{}; handled bool }] *)
Record TryBlock : Type := mkTryBlock {
  err : any;
  handled : bool;
}.

(** [TryBlock{}], the zero value. *)
Definition zero_block : TryBlock := {| err := None; handled := false |}.

Definition loc : Type := nat.

(** [*TryBlock] *)
Definition ptr : Type := option loc.

Record world : Type := mkWorld {
  heap : gmap nat TryBlock;
  user : S;
}.

(** [*p].  Go has no dangling pointers; an address outside the heap reads as
    the zero value, which keeps the model total. *)
Definition deref (w : world) (p : loc) : TryBlock :=
  default zero_block (heap w !! p).

(** ** Computations *)

Inductive outcome (A : Type) : Type :=
  | Normal (a : A)
  | Panicking (v : any).
Global Arguments Normal {A} a.
Global Arguments Panicking {A} v.

Definition M (A : Type) : Type := world → outcome A * world.

Definition ret {A} (a : A) : M A := λ w, (Normal a, w).

Definition bind {A B} (c : M A) (k : A → M B) : M B :=
  λ w, match c w with
       | (Normal a, w') => k a w'
       | (Panicking v, w') => (Panicking v, w')
       end.

(** An operation of the client on its own state. *)
Definition lift {A} (f : S → A * S) : M A :=
  λ w, (Normal (f (user w)).1, {| heap := heap w; user := (f (user w)).2 |}).

(** [panic(v)] *)
Definition gopanic {A} (v : any) : M A :=
  λ w, (Panicking (match v with Some _ => v | None => nil_panic end), w).

(** [defer d(); body] for a [d] that does not call [recover()]: [d] runs when
    [body] is left, normally or panicking; a panic of [d] replaces the one in
    flight. *)
Definition with_defer {A} (d : M unit) (body : M A) : M A :=
  λ w, match body w with
       | (o, w') =>
           match d w' with
           | (Normal _, w'') => (o, w'')
           | (Panicking v, w'') => (Panicking v, w'')
           end
       end.

(** [defer func() { r := recover(); d(r) }(); body]: the deferred function
    stops the panic in flight and receives its payload, nil when [body]
    returned. *)
Definition defer_recover (d : any → M unit) (body : M unit) : M unit :=
  λ w, match body w with
       | (Normal _, w') => d None w'
       | (Panicking r, w') => d r w'
       end.

(** A [func()] given to [defer].  The builtin [recover] has an effect only in
    the function a panic runs, called by that function itself: there it
    returns the payload of the panic and stops it; anywhere else it returns
    nil and does nothing.  So a deferred function is a computation that
    depends on what [recover()] returns to it, and that tells whether it has
    called [recover()]. *)
Definition deferred : Type := any → M bool.

(** [defer fn(); body] in a function without results.  When [body] panics with
    [r], [fn] runs with [r] in flight: the function returns if [fn] has called
    [recover()], goes on panicking with [r] if [fn] returns without, and
    panics with the payload of [fn] if [fn] panics.  When [body] returns, [fn]
    runs with nothing to recover. *)
Definition defer_call (fn : deferred) (body : M unit) : M unit :=
  λ w, match body w with
       | (Normal _, w') =>
           match fn None w' with
           | (Normal _, w'') => (Normal tt, w'')
           | (Panicking e, w'') => (Panicking e, w'')
           end
       | (Panicking r, w') =>
           match fn r w' with
           | (Normal true, w'') => (Normal tt, w'')
           | (Normal false, w'') => (Panicking r, w'')
           | (Panicking e, w'') => (Panicking e, w'')
           end
       end.

(** [*p] as a computation. *)
Definition load (p : loc) : M TryBlock := λ w, (Normal (deref w p), w).

(** The address the next allocation returns, and the world after it. *)
Definition fresh_loc (w : world) : loc := fresh (dom (heap w)).

Definition alloc (w : world) : world :=
  {| heap := <[fresh_loc w := zero_block]> (heap w); user := user w |}.

(** [&TryBlock{}] *)
Definition new_block : M loc := λ w, (Normal (fresh_loc w), alloc w).

(** [p.err = r] *)
Definition store_err (p : loc) (r : any) : M unit :=
  λ w, (Normal tt,
        {| heap := <[p := {| err := r; handled := handled (deref w p) |}]> (heap w);
           user := user w |}).

(** [p.handled = true] *)
Definition store_handled (p : loc) : M unit :=
  λ w, (Normal tt,
        {| heap := <[p := {| err := err (deref w p); handled := true |}]> (heap w);
           user := user w |}).

End Model.

Global Arguments world {U} S.
Global Arguments M {U} S A.
Global Arguments deferred {U} S.

Global Instance M_ret `{U : Universe} {S : Type} : MRet (M S) := @ret U S.
Global Instance M_bind `{U : Universe} {S : Type} : MBind (M S) :=
  λ A B k c, bind c k.

Section Package.
Context `{U : Universe} {S : Type}.
Local Abbreviation M := (M S).
Local Abbreviation deferred := (deferred S).

(** ** The package *)

(** [tb.err != nil && !tb.handled] *)
Definition unhandled (b : TryBlock) : bool := not_nil (err b) && negb (handled b).

(** [func Try(fn func()) *TryBlock] *)
Definition Try (fn : M unit) : M ptr :=
  p ← new_block;
  defer_recover
    (λ r, if not_nil r then store_err p r else mret tt)
    fn;;
  mret (Some p).

(** [func Catch[T any](tb *TryBlock, handler func(T)) *TryBlock] *)
Definition Catch (T : type_arg) (tb : ptr) (handler : val → M unit) : M ptr :=
  match tb with
  | None => p ← new_block; mret (Some p)
  | Some p =>
      b ← load p;
      if unhandled b then
        match type_assert T (err b) with
        | Some e => handler e;; store_handled p;; mret tb
        | None => mret tb
        end
      else mret tb
  end.

(** [func CatchWithReturn[T any](tb *TryBlock, handler func(T) interface{})
    (interface{}, *TryBlock)] *)
Definition CatchWithReturn (T : type_arg) (tb : ptr) (handler : val → M any)
    : M (any * ptr) :=
  match tb with
  | None => p ← new_block; mret (None, Some p)
  | Some p =>
      b ← load p;
      if unhandled b then
        match type_assert T (err b) with
        | Some e =>
            result ← handler e;
            store_handled p;;
            mret (result, tb)
        | None => mret (None, tb)
        end
      else mret (None, tb)
  end.

(** [func (tb *TryBlock) CatchAny(handler func(interface{})) *TryBlock] *)
Definition CatchAny (tb : ptr) (handler : any → M unit) : M ptr :=
  match tb with
  | None => p ← new_block; mret (Some p)
  | Some p =>
      b ← load p;
      if unhandled b then
        handler (err b);; store_handled p;; mret tb
      else mret tb
  end.

(** [fn()], a call of a [func()] outside a panic of its caller: [recover()]
    returns nil in [fn] and stops nothing. *)
Definition invoke (fn : deferred) : M unit := fn None;; mret ().

(** The [func()] whose body is [c] and does not call [recover()]. *)
Definition plain (c : M unit) : deferred := λ _, c;; mret false.

(** The [func()] whose body is [c(recover())]: it calls [recover()] and goes
    on with what that returned. *)
Definition recovering (c : any → M unit) : deferred := λ r, c r;; mret true.

(** [func (tb *TryBlock) Finally(fn func())].  On a nil block [fn] is called.
    Otherwise [fn] is deferred and the block is tested before [fn] runs: when
    it is unhandled, [fn] runs with the re-raised panic in flight. *)
Definition Finally (tb : ptr) (fn : deferred) : M unit :=
  match tb with
  | None => invoke fn
  | Some p =>
      defer_call fn
        (b ← load p;
         if unhandled b then gopanic (err b) else mret tt)
  end.

(** [func Throw(err interface{})] *)
Definition Throw (e : any) : M unit := gopanic e.

(** ** The states of a block

    The specification names three states: [Clean], [Unhandled v] and
    [Handled]. *)
Definition Clean (b : TryBlock) : Prop := err b = None.
Definition Unhandled (b : TryBlock) (v : val) : Prop :=
  err b = Some v ∧ handled b = false.
Definition Handled (b : TryBlock) : Prop := handled b = true.

(** The three situations in which a typed dispatch does nothing. *)
Definition passes (T : type_arg) (b : TryBlock) : Prop :=
  Handled b ∨ Clean b ∨ ∃ v, Unhandled b v ∧ satisfies (type_of v) T = false.

(** What [recover()] returns in the function deferred by [Try]. *)
Definition recovered (o : outcome ()) : any :=
  match o with
  | Normal _ => None
  | Panicking r => r
  end.

(** ** Dispatch chains

    The calls a client writes after [Try], each fed the block the previous one
    returned:
    [tb = Catch[T1](tb, h1); tb = Catch[T2](tb, h2); tb = tb.CatchAny(h)]. *)
Inductive stage : Type :=
  | StCatch (T : type_arg) (handler : val → M unit)
  | StCatchWithReturn (T : type_arg) (handler : val → M any)
  | StCatchAny (handler : any → M unit).

Definition run_stage (tb : ptr) (s : stage) : M ptr :=
  match s with
  | StCatch T h => Catch T tb h
  | StCatchWithReturn T h => r ← CatchWithReturn T tb h; mret r.2
  | StCatchAny h => CatchAny tb h
  end.

Fixpoint run_chain (tb : ptr) (c : list stage) : M ptr :=
  match c with
  | [] => mret tb
  | s :: c' => tb' ← run_stage tb s; run_chain tb' c'
  end.

(** [tb := Try(fn); tb = ...chain...; tb.Finally(cleanup)] *)
Definition try_catch_finally (fn : M unit) (c : list stage)
    (cleanup : deferred) : M unit :=
  tb ← Try fn;
  tb' ← run_chain tb c;
  Finally tb' cleanup.

(** The handler call a stage makes for the payload [v], if it accepts [v]:
    the type-assertion rule of the code. *)
Definition stage_call (s : stage) (v : val) : option (M unit) :=
  match s with
  | StCatch T h => if satisfies (type_of v) T then Some (h v) else None
  | StCatchWithReturn T h =>
      if satisfies (type_of v) T then Some (h v;; mret tt) else None
  | StCatchAny h => Some (h (Some v))
  end.

(** The call of the first stage, in call order, that accepts [v]. *)
Fixpoint first_match (c : list stage) (v : val) : option (M unit) :=
  match c with
  | [] => None
  | s :: c' =>
      match stage_call s v with
      | Some call => Some call
      | None => first_match c' v
      end
  end.

(** The rule in the words of the specification: a typed stage accepts [v] only
    when its declared type is exactly the runtime type of [v], without
    interface widening. *)
Definition exactly (t : ty) (T : type_arg) : bool :=
  match T with
  | Concrete t' => bool_decide (t = t')
  | Interface _ => false
  end.

Definition stage_call_exact (s : stage) (v : val) : option (M unit) :=
  match s with
  | StCatch T h => if exactly (type_of v) T then Some (h v) else None
  | StCatchWithReturn T h =>
      if exactly (type_of v) T then Some (h v;; mret tt) else None
  | StCatchAny h => Some (h (Some v))
  end.

Fixpoint first_match_exact (c : list stage) (v : val) : option (M unit) :=
  match c with
  | [] => None
  | s :: c' =>
      match stage_call_exact s v with
      | Some call => Some call
      | None => first_match_exact c' v
      end
  end.

(** ** Client programs

    The computations a Go program outside the package can build: its own
    state, [panic], [defer] and [recover], and the exported functions.  The
    fields of a [TryBlock] are unexported, so the heap is reached through the
    package only. *)
Inductive client : ∀ {A : Type}, M A → Prop :=
  | client_ret {A} (a : A) : client (mret a)
  | client_bind {A B} (c : M A) (k : A → M B) :
      client c → (∀ a, client (k a)) → client (c ≫= k)
  | client_lift {A} (f : S → A * S) : client (lift f)
  | client_panic {A} (e : any) : client (gopanic (A := A) e)
  | client_with_defer {A} (d : M unit) (body : M A) :
      client d → client body → client (with_defer d body)
  | client_defer_recover (d : any → M unit) (body : M unit) :
      (∀ r, client (d r)) → client body → client (defer_recover d body)
  | client_defer_call (fn : deferred) (body : M unit) :
      (∀ r, client (fn r)) → client body → client (defer_call fn body)
  | client_Throw (e : any) : client (Throw e)
  | client_Try (fn : M unit) : client fn → client (Try fn)
  | client_Catch T tb (h : val → M unit) :
      (∀ v, client (h v)) → client (Catch T tb h)
  | client_CatchWithReturn T tb (h : val → M any) :
      (∀ v, client (h v)) → client (CatchWithReturn T tb h)
  | client_CatchAny tb (h : any → M unit) :
      (∀ e, client (h e)) → client (CatchAny tb h)
  | client_Finally tb (fn : deferred) :
      (∀ r, client (fn r)) → client (Finally tb fn).

(** ** The invariant of the store *)

(** A handled block holds a captured failure. *)
Definition wf (w : world S) : Prop :=
  ∀ p b, heap w !! p = Some b → handled b = true → err b ≠ None.

(** What may happen to the blocks of [w] on the way to [w']: they stay, keep
    their captured failure, and stay handled once handled. *)
Definition evolves (w w' : world S) : Prop :=
  ∀ p b, heap w !! p = Some b →
    ∃ b', heap w' !! p = Some b' ∧ err b' = err b
          ∧ (handled b = true → handled b' = true).

(** A computation that keeps the store well formed and only lets it evolve. *)
Definition sound {A} (c : M A) : Prop :=
  ∀ w o w', c w = (o, w') → wf w → wf w' ∧ evolves w w'.

(** A stage whose handler is a client program. *)
Definition client_stage (s : stage) : Prop :=
  match s with
  | StCatch _ h => ∀ v, client (h v)
  | StCatchWithReturn _ h => ∀ v, client (h v)
  | StCatchAny h => ∀ e, client (h e)
  end.

End Package.

(** ** The payloads of the repository *)

(** Package [errors]: the four payload records and their constructors.  The
    [Cause error] of a [DatabaseError] is kept as the message of the
    [errors.New] value the demos store there. *)
Module errors.

Record ValidationError : Type := {
  Field : string;
  Message : string;
  Code : Z;
}.

Definition NewValidationError (field message : string) (code : Z)
    : ValidationError :=
  {| Field := field; Message := message; Code := code |}.

Record DatabaseError : Type := {
  Operation : string;
  Table : string;
  Cause : string;
}.

Definition NewDatabaseError (operation table cause : string) : DatabaseError :=
  {| Operation := operation; Table := table; Cause := cause |}.

Record NetworkError : Type := {
  URL : string;
  StatusCode : Z;
  Timeout : bool;
}.

Definition NewNetworkError (url : string) (statusCode : Z) : NetworkError :=
  {| URL := url; StatusCode := statusCode; Timeout := false |}.

Definition NewNetworkTimeoutError (url : string) : NetworkError :=
  {| URL := url; StatusCode := 0; Timeout := true |}.

Record BusinessLogicError : Type := {
  Rule : string;
  Details : string;
}.

Definition NewBusinessLogicError (rule details : string) : BusinessLogicError :=
  {| Rule := rule; Details := details |}.

End errors.

(** The dynamic types the demos and tests raise, and the two interface types
    they dispatch on. *)
Inductive go_type : Type :=
  | TString
  | TInt
  | TValidationError
  | TDatabaseError
  | TNetworkError
  | TBusinessLogicError
  | TNumErrorPtr
  | TPanicNilErrorPtr.

Inductive go_iface : Type :=
  | IError
  | IAny.

Inductive go_val : Type :=
  | VString (s : string)
  | VInt (n : Z)
  | VValidationError (e : errors.ValidationError)
  | VDatabaseError (e : errors.DatabaseError)
  | VNetworkError (e : errors.NetworkError)
  | VBusinessLogicError (e : errors.BusinessLogicError)
  | VNumError (func num msg : string)
  | VPanicNilError.

Global Instance go_type_eq_dec : EqDecision go_type.
Proof. solve_decision. Defined.

Definition go_type_of (v : go_val) : go_type :=
  match v with
  | VString _ => TString
  | VInt _ => TInt
  | VValidationError _ => TValidationError
  | VDatabaseError _ => TDatabaseError
  | VNetworkError _ => TNetworkError
  | VBusinessLogicError _ => TBusinessLogicError
  | VNumError _ _ _ => TNumErrorPtr
  | VPanicNilError => TPanicNilErrorPtr
  end.

(** Every type implements [interface{}]; the types with an [Error() string]
    method implement [error]. *)
Definition go_implements (t : go_type) (i : go_iface) : bool :=
  match i with
  | IAny => true
  | IError =>
      match t with
      | TString | TInt => false
      | _ => true
      end
  end.

(** The runtime up to Go 1.20: [panic(nil)] is recovered as nil. *)
Definition go120 : Universe :=
  {| val := go_val; ty := go_type; iface := go_iface;
     type_of := go_type_of; implements := go_implements;
     nil_panic := None |}.

(** The runtime from Go 1.21: [panic(nil)] raises a [*runtime.PanicNilError]. *)
Definition go121 : Universe :=
  {| val := go_val; ty := go_type; iface := go_iface;
     type_of := go_type_of; implements := go_implements;
     nil_panic := Some VPanicNilError |}.

(** ** Sample clients

    The tests keep a list of steps ([TestIntegration_CompleteWorkflow]); the
    sample clients do the same: their state is the list of the steps taken. *)
Module Sample.

Definition say `{U : Universe} (step : string) : M (list string) unit :=
  lift (λ steps, (tt, steps ++ [step])).

Definition start `{U : Universe} : world (list string) :=
  {| heap := ∅; user := [] |}.

#[local] Existing Instance go120.

Definition name_required : go_val :=
  VValidationError (errors.NewValidationError "name" "required" 1001).

Definition age_limit : go_val :=
  VBusinessLogicError (errors.NewBusinessLogicError "age_limit" "must be over 18").

(** What [strconv.Atoi("abc")] returns and [parseNumber] throws in demo 3: a
    [*strconv.NumError]. *)
Definition num_error : go_val := VNumError "Atoi" "abc" "invalid syntax".

(** The world after [tb := Try(func() { panic(v) })]; the block is at
    address 0. *)
Definition raised (v : go_val) : world (list string) :=
  (Try (Throw (Some v)) start).2.

(** A world whose block 0 has been handled. *)
Definition settled : world (list string) :=
  (Catch (Concrete TValidationError) (Some 0) (λ _, mret ())
     (raised name_required)).2.

(** The chain of [TestIntegration_CompleteWorkflow]. *)
Definition workflow_chain : list (stage (S := list string)) :=
  [ StCatch (Concrete TDatabaseError) (λ _, say "database_handler_called");
    StCatch (Concrete TValidationError) (λ _, say "validation_handler_called") ].

(** The chain of demo 3, with a stage for the payload's own type after the
    stage for [error]. *)
Definition error_first_chain : list (stage (S := list string)) :=
  [ StCatch (Interface IError) (λ _, say "error");
    StCatch (Concrete TValidationError) (λ _, say "validation");
    StCatchAny (λ _, say "any") ].

End Sample.

(** ** The first version of the package (examples/main_original.go)

    The example program carries its own copy of the package.  [Catch],
    [CatchWithReturn], [CatchAny], [Finally] and [Throw] are the same there;
    [Try] defers the recovering function in its own frame instead of in a
    nested function. *)
Section Original.
Context `{U : Universe} {S : Type}.
Local Abbreviation M := (M S).
Local Abbreviation deferred := (deferred S).

(** [defer func() { r := recover(); d(r) }(); body] as the body of a function
    with an unnamed result: when [body] returns [a] the function returns [a];
    when the deferred function has stopped a panic, no [return] statement has
    run and the function returns the zero value of its result type. *)
Definition defer_recover_result {A} (zero : A) (d : any → M unit)
    (body : M A) : M A :=
  λ w, match body w with
       | (Normal a, w') => (d None;; mret a) w'
       | (Panicking r, w') => (d r;; mret zero) w'
       end.

(** [func Try(fn func()) *TryBlock] of examples/main_original.go *)
Definition Try_original (fn : M unit) : M ptr :=
  p ← new_block;
  defer_recover_result None
    (λ r, if not_nil r then store_err p r else mret tt)
    (fn;; mret (Some p)).

(** [tb := Try(fn); tb = ...chain...; tb.Finally(cleanup)] in that file. *)
Definition try_catch_finally_original (fn : M unit) (c : list stage)
    (cleanup : deferred) : M unit :=
  tb ← Try_original fn;
  tb' ← run_chain tb c;
  Finally tb' cleanup.

(** A stage accepts the payload [v] when it would call its handler for it. *)
Definition accepts (s : stage (S := S)) (v : val) : Prop :=
  is_Some (stage_call s v).

(** [Catch[interface{}]] seen as a [CatchAny]: the handler of the typed stage
    applied to what [CatchAny] passes. *)
Definition as_any_handler (h : val → M unit) (e : any) : M unit :=
  match e with
  | Some v => h v
  | None => mret tt
  end.

End Original.

(** ** The demo program

    The business functions and the scenarios of the demo program (the file of
    [demo1_BasicUsage] .. [demo6_RealWorldExample]).  Standard output is the
    state of the client: the list of the texts printed, one per call of
    [fmt.Printf] or [fmt.Println].  An [int] is a [Z]; the [Cause] of a
    [DatabaseError] is the message given to [errors.New]. *)

(** The Go runtime in which [recover()] returns [np] after [panic(nil)]. *)
Definition go_runtime (np : option go_val) : Universe :=
  {| val := go_val; ty := go_type; iface := go_iface;
     type_of := go_type_of; implements := go_implements;
     nil_panic := np |}.

Module demo.
Section Demo.

(** The runtime, [strconv.Atoi] (its [error] result is nil or a value whose
    type implements [error]), the method [Error] of the values of the standard
    library, and the verb [%v] of package [fmt]. *)
Variable np : option go_val.
Variable Atoi : string → Z * option go_val.
Variable Error : go_val → string.
Variable fmt_v : option go_val → string.

#[local] Instance runtime : Universe := go_runtime np.

(** The newline character. *)
Definition nl : string := String (Ascii.ascii_of_nat 10) EmptyString.

(** [fmt.Printf] and [fmt.Println] with the text they write. *)
Definition Printf (text : string) : M (list string) () :=
  lift (λ out, ((), out ++ [text])).

Definition Println (text : string) : M (list string) () :=
  Printf (text +:+ nl).

(** A handler [func(err T)] receives the value the type assertion [.(T)]
    produced; the other cases are not reached. *)
Definition on_string {S} (h : string → M S ()) (v : go_val) : M S () :=
  match v with
  | VString e => h e
  | _ => mret ()
  end.

Definition on_ValidationError {S} (h : errors.ValidationError → M S ())
    (v : go_val) : M S () :=
  match v with
  | VValidationError e => h e
  | _ => mret ()
  end.

Definition on_DatabaseError {S} (h : errors.DatabaseError → M S ())
    (v : go_val) : M S () :=
  match v with
  | VDatabaseError e => h e
  | _ => mret ()
  end.

Definition on_NetworkError {S} (h : errors.NetworkError → M S ())
    (v : go_val) : M S () :=
  match v with
  | VNetworkError e => h e
  | _ => mret ()
  end.

Definition on_BusinessLogicError {S} (h : errors.BusinessLogicError → M S ())
    (v : go_val) : M S () :=
  match v with
  | VBusinessLogicError e => h e
  | _ => mret ()
  end.

(** [func validateUser(name, email string, age int)] *)
Definition validateUser {S} (name email : string) (age : Z) : M S () :=
  (if bool_decide (name = "") then
     Throw (Some (VValidationError
       (errors.NewValidationError "name" "name cannot be empty" 1001)))
   else mret ());;
  (if bool_decide (age < 0)%Z || bool_decide (age > 150)%Z then
     Throw (Some (VValidationError
       (errors.NewValidationError "age" "age must be between 0 and 150" 1002)))
   else mret ());;
  (if bool_decide (email = "invalid") then
     Throw (Some (VValidationError
       (errors.NewValidationError "email" "invalid email format" 1003)))
   else mret ()).

(** [func accessDatabase(operation string)] *)
Definition accessDatabase {S} (operation : string) : M S () :=
  (if bool_decide (operation = "delete_all") then
     Throw (Some (VDatabaseError
       (errors.NewDatabaseError "DELETE" "users" "permission denied")))
   else mret ());;
  (if bool_decide (operation = "timeout") then
     Throw (Some (VDatabaseError
       (errors.NewDatabaseError "SELECT" "orders" "connection timeout")))
   else mret ()).

(** [func callExternalAPI(url string)] *)
Definition callExternalAPI {S} (url : string) : M S () :=
  (if bool_decide (url = "http://timeout.com") then
     Throw (Some (VNetworkError (errors.NewNetworkTimeoutError url)))
   else mret ());;
  (if bool_decide (url = "http://notfound.com") then
     Throw (Some (VNetworkError (errors.NewNetworkError url 404)))
   else mret ()).

(** [func processOrder(orderType string)] *)
Definition processOrder {S} (orderType : string) : M S () :=
  if bool_decide (orderType = "refund") then
    Throw (Some (VBusinessLogicError
      (errors.NewBusinessLogicError "refund_policy"
         "refunds not allowed after 30 days")))
  else mret ().

(** [func parseNumber(s string) int] *)
Definition parseNumber {S} (s : string) : M S Z :=
  (if bool_decide (s = "invalid") then
     Throw (Some (VString "invalid number format"))
   else mret ());;
  let num := (Atoi s).1 in
  let err := (Atoi s).2 in
  (if not_nil err then Throw err else mret ());;
  mret num.

(** The handler of the inner [Catch] of [demo5_NestedTryCatch]: it prints the
    message of the error, then throws a [BusinessLogicError] that names its
    field. *)
Definition demo5_inner_handler : go_val → M (list string) () :=
  on_ValidationError (λ err,
    Printf ("    ✓ Inner catch: " +:+ errors.Message err +:+ nl);;
    Throw (Some (VBusinessLogicError
      (errors.NewBusinessLogicError "user_validation"
         ("failed inner validation: " +:+ errors.Field err))))).

(** [func demo5_NestedTryCatch()] *)
Definition demo5_NestedTryCatch : M (list string) () :=
  Println (nl +:+ "=== Demo 5: 嵌套异常处理 ===");;
  tb ← Try (
    Println "  Outer try block started";;
    innerTb ← Try (
      Println "    Inner try block started";;
      validateUser "" "test@example.com" 25);
    innerTb ← Catch (Concrete TValidationError) innerTb demo5_inner_handler;
    Finally innerTb (plain (Println "    Inner finally block"));;
    Println "  This should not be reached");
  tb ← Catch (Concrete TBusinessLogicError) tb (on_BusinessLogicError (λ err,
    Printf ("  ✓ Outer catch: " +:+ errors.Details err +:+ nl)));
  Finally tb (plain (Println "  Nested example completed")).

(** The body of the loop of [demo2_MultipleExceptionTypes], for the scenario
    [name] with the function [fn]. *)
Definition demo2_chain : list (stage (S := list string)) :=
  [ StCatch (Concrete TValidationError) (on_ValidationError (λ err,
      Printf ("✓ Validation issue: " +:+ errors.Message err +:+ " (Code: "
              +:+ pretty (errors.Code err) +:+ ")" +:+ nl)));
    StCatch (Concrete TDatabaseError) (on_DatabaseError (λ err,
      Printf ("✓ Database issue: " +:+ errors.Operation err +:+ " on "
              +:+ errors.Table err +:+ nl)));
    StCatch (Concrete TNetworkError) (on_NetworkError (λ err,
      if errors.Timeout err then
        Printf ("✓ Network timeout: " +:+ errors.URL err +:+ nl)
      else
        Printf ("✓ Network error " +:+ pretty (errors.StatusCode err) +:+ ": "
                +:+ errors.URL err +:+ nl)));
    StCatch (Concrete TBusinessLogicError) (on_BusinessLogicError (λ err,
      Printf ("✓ Business rule violation: " +:+ errors.Rule err +:+ nl))) ].

Definition demo2_scenario (name : string) (fn : M (list string) ())
    : M (list string) () :=
  Printf (nl +:+ "--- Testing " +:+ name +:+ " ---" +:+ nl);;
  try_catch_finally fn demo2_chain (plain (Println "  Scenario completed")).

(** What a scenario of demo 2 does when the chain handles what [fn] raises:
    it returns, having printed the header, at most one line of a handler, and
    the completion line. *)
Definition handled_by_demo2 (name : string) (fn : M (list string) ())
    (w : world (list string)) : Prop :=
  (demo2_scenario name fn w).1 = Normal ()
  ∧ ∃ lines : list string,
      user (demo2_scenario name fn w).2
      = user w ++ [nl +:+ "--- Testing " +:+ name +:+ " ---" +:+ nl]
          ++ lines ++ ["  Scenario completed" +:+ nl]
      ∧ length lines ≤ 1.

(** The body of the loop of [demo3_InterfaceAndBuiltinTypes], for the scenario
    [name] that parses [s]. *)
Definition demo3_chain : list (stage (S := list string)) :=
  [ StCatch (Concrete TString) (on_string (λ err,
      Printf ("✓ String error: " +:+ err +:+ nl)));
    StCatch (Interface IError) (λ err,
      Printf ("✓ Standard error: " +:+ Error err +:+ nl));
    StCatchAny (λ err, Printf ("✓ Unknown error: " +:+ fmt_v err +:+ nl)) ].

Definition demo3_scenario (name s : string) : M (list string) () :=
  Printf (nl +:+ "--- Testing " +:+ name +:+ " ---" +:+ nl);;
  try_catch_finally (parseNumber s;; mret ()) demo3_chain
    (plain (Println "  Parsing attempt completed")).

(** [processUserOrder] of [demo6_RealWorldExample]; [now] is what
    [time.Now().Format("15:04:05")] returns when the cleanup runs. *)
Definition order_steps (userID orderData : string) : M (list string) () :=
  (if bool_decide (userID = "") then
     Throw (Some (VValidationError
       (errors.NewValidationError "userID" "user ID is required" 2001)))
   else mret ());;
  (if bool_decide (userID = "blocked_user") then
     Throw (Some (VDatabaseError
       (errors.NewDatabaseError "SELECT" "users" "user account blocked")))
   else mret ());;
  (if bool_decide (orderData = "payment_failed") then
     Throw (Some (VNetworkError
       (errors.NewNetworkError "https://payment.api.com" 402)))
   else mret ());;
  (if bool_decide (orderData = "insufficient_stock") then
     Throw (Some (VBusinessLogicError
       (errors.NewBusinessLogicError "inventory_check"
          "requested quantity exceeds available stock")))
   else mret ());;
  Printf ("  ✓ Order processed successfully for user: " +:+ userID +:+ nl).

Definition order_chain : list (stage (S := list string)) :=
  [ StCatch (Concrete TValidationError) (on_ValidationError (λ err,
      Printf ("  ❌ Input validation failed: " +:+ errors.Message err +:+ nl)));
    StCatch (Concrete TDatabaseError) (on_DatabaseError (λ err,
      Printf ("  ❌ Database operation failed: " +:+ errors.Cause err +:+ nl)));
    StCatch (Concrete TNetworkError) (on_NetworkError (λ err,
      Printf ("  ❌ External service error: "
              +:+ pretty (errors.StatusCode err) +:+ " from "
              +:+ errors.URL err +:+ nl)));
    StCatch (Concrete TBusinessLogicError) (on_BusinessLogicError (λ err,
      Printf ("  ❌ Business rule violation: " +:+ errors.Details err +:+ nl)));
    StCatchAny (λ err,
      Printf ("  ❌ Unexpected error: " +:+ fmt_v err +:+ nl)) ].

Definition processUserOrder (now userID orderData : string)
    : M (list string) () :=
  try_catch_finally (order_steps userID orderData) order_chain
    (plain (Printf ("  📝 Order processing completed for user: " +:+ userID
                    +:+ " at " +:+ now +:+ nl))).

(** The text [processUserOrder] prints before the completion line: the line
    of the first check that fails, in the order of [order_steps], or the
    success line. *)
Definition order_report (userID orderData : string) : string :=
  if bool_decide (userID = "") then
    "  ❌ Input validation failed: user ID is required" +:+ nl
  else if bool_decide (userID = "blocked_user") then
    "  ❌ Database operation failed: user account blocked" +:+ nl
  else if bool_decide (orderData = "payment_failed") then
    "  ❌ External service error: 402 from https://payment.api.com" +:+ nl
  else if bool_decide (orderData = "insufficient_stock") then
    "  ❌ Business rule violation: requested quantity exceeds available stock"
    +:+ nl
  else "  ✓ Order processed successfully for user: " +:+ userID +:+ nl.

End Demo.
End demo.

(** Stand-ins for the parts of the standard library the demo program uses,
    to run it on examples: an [Atoi] that knows the number 42, an [Error]
    method that gives the message of a [*strconv.NumError], and a [%v] that
    prints a question mark. *)
Module stdlib_sample.

Definition Atoi (s : string) : Z * option go_val :=
  if bool_decide (s = "42") then (42%Z, None)
  else (0%Z, Some (VNumError "Atoi" s "invalid syntax")).

Definition Error (v : go_val) : string :=
  match v with
  | VNumError _ _ msg => msg
  | _ => ""
  end.

Definition fmt_v (e : option go_val) : string := "?".

End stdlib_sample.

(** ** The messages of the payloads

    The [Error() string] methods of package [errors].  [fmt.Sprintf] writes
    [%s] as the string itself and [%d] as the decimal numeral of the integer,
    with a minus sign when it is negative; [%v] of the [Cause] writes its
    message. *)
Module errors_Error.

Definition ValidationError (e : errors.ValidationError) : string :=
  "validation error [" +:+ pretty (errors.Code e) +:+ "] on field '"
  +:+ errors.Field e +:+ "': " +:+ errors.Message e.

Definition DatabaseError (e : errors.DatabaseError) : string :=
  "database error during " +:+ errors.Operation e +:+ " on table '"
  +:+ errors.Table e +:+ "': " +:+ errors.Cause e.

Definition NetworkError (e : errors.NetworkError) : string :=
  if errors.Timeout e then
    "network timeout when accessing " +:+ errors.URL e
  else
    "network error " +:+ pretty (errors.StatusCode e) +:+ " when accessing "
    +:+ errors.URL e.

Definition BusinessLogicError (e : errors.BusinessLogicError) : string :=
  "business rule violation: " +:+ errors.Rule e +:+ " - " +:+ errors.Details e.

(** The characters of a decimal numeral: the ten digits and the minus
    sign. *)
Definition minus_sign : Ascii.ascii := Ascii.ascii_of_nat 45.

Definition numeral_char (a : Ascii.ascii) : Prop :=
  a = minus_sign ∨ ∃ d : N, a = pretty_N_char d.

Fixpoint numeral (s : string) : Prop :=
  match s with
  | EmptyString => True
  | String a s' => numeral_char a ∧ numeral s'
  end.

End errors_Error.

(** * Properties *)

Section Properties.
Context `{U : Universe} {S : Type}.
Implicit Types (w : world S) (p : loc) (tb : ptr) (b : TryBlock) (v : val).
Local Abbreviation M := (M S).
Local Abbreviation deferred := (deferred S).

Ltac unfold_monad :=
  unfold mbind, M_bind, bind, mret, M_ret, ret, load in *.

(** ** The store *)

Lemma unhandled_true b :
  unhandled b = true ↔ ∃ v, Unhandled b v.
Proof.
  unfold unhandled, Unhandled. destruct b as [[v|] []]; simpl; split;
    try discriminate; try (intros [? [? ?]]; discriminate); eauto.
Qed.

Lemma Unhandled_unhandled b v : Unhandled b v → unhandled b = true.
Proof. intros H. apply unhandled_true. eauto. Qed.

(** An unhandled block holds one payload: what fails for it fails for the
    block. *)
Lemma Unhandled_mismatch T b v :
  Unhandled b v → satisfies (type_of v) T = false →
  ∀ v', Unhandled b v' → satisfies (type_of v') T = false.
Proof. intros [Hv _] Hs v' [Hv' _]. congruence. Qed.

Lemma Handled_unhandled b : Handled b → unhandled b = false.
Proof. unfold Handled, unhandled. intros ->. by rewrite andb_false_r. Qed.

Lemma Clean_unhandled b : Clean b → unhandled b = false.
Proof. unfold Clean, unhandled. by intros ->. Qed.

Lemma fresh_loc_free w : heap w !! fresh_loc w = None.
Proof. apply not_elem_of_dom, is_fresh. Qed.

Lemma lookup_alloc w p b :
  heap w !! p = Some b → heap (alloc w) !! p = Some b.
Proof.
  intros H. unfold alloc; simpl. rewrite lookup_insert_ne; [done|].
  intros <-. rewrite fresh_loc_free in H. discriminate.
Qed.

Lemma deref_alloc_fresh w : deref (alloc w) (fresh_loc w) = zero_block.
Proof. unfold deref, alloc; simpl. by rewrite lookup_insert_eq. Qed.

Lemma deref_lookup w p b : heap w !! p = Some b → deref w p = b.
Proof. unfold deref. by intros ->. Qed.

(** A block that holds a failure has been allocated. *)
Lemma deref_allocated w p v :
  err (deref w p) = Some v → heap w !! p = Some (deref w p).
Proof. unfold deref. destruct (heap w !! p); [done | discriminate]. Qed.

Lemma deref_alloc w p v :
  err (deref w p) = Some v → deref (alloc w) p = deref w p.
Proof.
  intros H. apply deref_lookup, lookup_alloc. by eapply deref_allocated.
Qed.

Lemma deref_store_handled w p :
  deref (store_handled p w).2 p = {| err := err (deref w p); handled := true |}.
Proof. unfold deref at 1; simpl. by rewrite lookup_insert_eq. Qed.

Lemma deref_store_err w p r :
  deref (store_err p r w).2 p = {| err := r; handled := handled (deref w p) |}.
Proof. unfold deref at 1; simpl. by rewrite lookup_insert_eq. Qed.

(** ** Type assertion *)

Lemma satisfies_Concrete (t t' : ty) : satisfies t (Concrete t') = true ↔ t = t'.
Proof. simpl. apply bool_decide_eq_true. Qed.

Lemma satisfies_Interface (t : ty) (i : iface) :
  satisfies t (Interface i) = implements t i.
Proof. reflexivity. Qed.

Lemma type_assert_Some T x v :
  type_assert T x = Some v ↔ x = Some v ∧ satisfies (type_of v) T = true.
Proof.
  unfold type_assert. destruct x as [v'|].
  - destruct (satisfies (type_of v') T) eqn:E; split.
    + intros [= ->]. done.
    + intros [[= ->] _]. done.
    + discriminate.
    + intros [[= ->] E']. congruence.
  - split; [discriminate | intros [? _]; discriminate].
Qed.

Lemma type_assert_None T v :
  type_assert T (Some v) = None ↔ satisfies (type_of v) T = false.
Proof. simpl. destruct (satisfies (type_of v) T); split; congruence. Qed.

(** ** Dispatch *)

Lemma Catch_fires T p (h : val → M unit) w v :
  Unhandled (deref w p) v → satisfies (type_of v) T = true →
  Catch T (Some p) h w = (h v;; store_handled p;; mret (Some p)) w.
Proof.
  intros Hu Hs. unfold Catch. unfold_monad.
  rewrite (Unhandled_unhandled _ _ Hu). destruct Hu as [-> _].
  simpl. by rewrite Hs.
Qed.

Lemma Catch_skips T p (h : val → M unit) w :
  (∀ v, Unhandled (deref w p) v → satisfies (type_of v) T = false) →
  Catch T (Some p) h w = (Normal (Some p), w).
Proof.
  intros Hs. unfold Catch. unfold_monad.
  destruct (unhandled (deref w p)) eqn:E; [|done].
  apply unhandled_true in E as [v Hu]. specialize (Hs v Hu).
  destruct Hu as [-> _]. simpl. by rewrite Hs.
Qed.

Lemma CatchWithReturn_fires T p (h : val → M any) w v :
  Unhandled (deref w p) v → satisfies (type_of v) T = true →
  CatchWithReturn T (Some p) h w
  = (result ← h v; store_handled p;; mret (result, Some p)) w.
Proof.
  intros Hu Hs. unfold CatchWithReturn. unfold_monad.
  rewrite (Unhandled_unhandled _ _ Hu). destruct Hu as [-> _].
  simpl. by rewrite Hs.
Qed.

Lemma CatchWithReturn_skips T p (h : val → M any) w :
  (∀ v, Unhandled (deref w p) v → satisfies (type_of v) T = false) →
  CatchWithReturn T (Some p) h w = (Normal (None, Some p), w).
Proof.
  intros Hs. unfold CatchWithReturn. unfold_monad.
  destruct (unhandled (deref w p)) eqn:E; [|done].
  apply unhandled_true in E as [v Hu]. specialize (Hs v Hu).
  destruct Hu as [-> _]. simpl. by rewrite Hs.
Qed.

Lemma CatchAny_fires p (h : any → M unit) w v :
  Unhandled (deref w p) v →
  CatchAny (Some p) h w = (h (Some v);; store_handled p;; mret (Some p)) w.
Proof.
  intros Hu. unfold CatchAny. unfold_monad.
  rewrite (Unhandled_unhandled _ _ Hu). by destruct Hu as [-> _].
Qed.

Lemma CatchAny_skips p (h : any → M unit) w :
  unhandled (deref w p) = false →
  CatchAny (Some p) h w = (Normal (Some p), w).
Proof. intros Hu. unfold CatchAny. unfold_monad. by rewrite Hu. Qed.

(** ** The invariant along client programs *)

Create HintDb sound discriminated.

Lemma evolves_refl w : evolves w w.
Proof. intros p b H. eauto. Qed.

Lemma evolves_trans w1 w2 w3 : evolves w1 w2 → evolves w2 w3 → evolves w1 w3.
Proof.
  intros H12 H23 p b H.
  destruct (H12 p b H) as (b2 & H2 & He2 & Hh2).
  destruct (H23 p b2 H2) as (b3 & H3 & He3 & Hh3).
  exists b3. split; [done|]. split; [congruence | auto].
Qed.

Lemma wf_alloc w : wf w → wf (alloc w).
Proof.
  intros Hwf p b. unfold alloc; simpl. rewrite lookup_insert.
  case_decide; [intros [= <-]; discriminate | apply Hwf].
Qed.

Lemma evolves_alloc w : evolves w (alloc w).
Proof. intros p b H. exists b. eauto using lookup_alloc. Qed.

Lemma wf_store_handled w p :
  wf w → err (deref w p) ≠ None → wf (store_handled p w).2.
Proof.
  intros Hwf He q b; simpl. rewrite lookup_insert.
  case_decide; [by intros [= <-] | apply Hwf].
Qed.

Lemma evolves_store_handled w p : evolves w (store_handled p w).2.
Proof.
  intros q b H; simpl. rewrite lookup_insert. case_decide as E.
  - subst q. eexists; split; [done|]. rewrite (deref_lookup _ _ _ H). done.
  - eauto.
Qed.

Lemma wf_store_err w p r : wf w → r ≠ None → wf (store_err p r w).2.
Proof.
  intros Hwf Hr q b; simpl. rewrite lookup_insert.
  case_decide; [by intros [= <-] | apply Hwf].
Qed.

(** Writing the failure into a block allocated after [w] does not touch the
    blocks of [w]. *)
Lemma evolves_store_err_fresh w w2 r :
  evolves (alloc w) w2 → evolves w (store_err (fresh_loc w) r w2).2.
Proof.
  intros H p b Hp.
  destruct (H p b (lookup_alloc _ _ _ Hp)) as (b' & Hb' & He & Hh).
  exists b'. split; [|done]. simpl. rewrite lookup_insert_ne; [done|].
  intros E. rewrite <- E, fresh_loc_free in Hp. discriminate.
Qed.

Lemma sound_ret {A} (a : A) : sound (mret a : M A).
Proof. intros w o w' [= <- <-] Hwf. eauto using evolves_refl. Qed.

Lemma sound_bind {A B} (c : M A) (k : A → M B) :
  sound c → (∀ a, sound (k a)) → sound (c ≫= k).
Proof.
  intros Hc Hk w o w' Hrun Hwf. unfold_monad.
  destruct (c w) as [[a|e] w1] eqn:E.
  - destruct (Hc _ _ _ E Hwf) as [Hwf1 Hev1].
    destruct (Hk a _ _ _ Hrun Hwf1) as [Hwf2 Hev2].
    eauto using evolves_trans.
  - injection Hrun as <- <-. eauto.
Qed.

Lemma sound_lift {A} (f : S → A * S) : sound (lift f).
Proof.
  intros w o w' [= <- <-] Hwf. split.
  - intros p b; simpl. apply Hwf.
  - intros p b H; simpl. eauto.
Qed.

Lemma sound_gopanic {A} (e : any) : sound (gopanic (S := S) (A := A) e).
Proof. intros w o w' [= <- <-] Hwf. eauto using evolves_refl. Qed.

Lemma sound_with_defer {A} (d : M unit) (body : M A) :
  sound d → sound body → sound (with_defer d body).
Proof.
  intros Hd Hb w o w' Hrun Hwf. unfold with_defer in Hrun.
  destruct (body w) as [o1 w1] eqn:E1.
  destruct (Hb _ _ _ E1 Hwf) as [Hwf1 Hev1].
  destruct (d w1) as [o2 w2] eqn:E2.
  destruct (Hd _ _ _ E2 Hwf1) as [Hwf2 Hev2].
  assert (w' = w2) as -> by (destruct o2; congruence).
  eauto using evolves_trans.
Qed.

Lemma sound_defer_recover (d : any → M unit) (body : M unit) :
  (∀ r, sound (d r)) → sound body → sound (defer_recover d body).
Proof.
  intros Hd Hb w o w' Hrun Hwf. unfold defer_recover in Hrun.
  destruct (body w) as [o1 w1] eqn:E1.
  destruct (Hb _ _ _ E1 Hwf) as [Hwf1 Hev1].
  destruct o1 as [[]|r];
    destruct (Hd _ _ _ _ Hrun Hwf1); eauto using evolves_trans.
Qed.

Lemma sound_defer_call (fn : deferred) (body : M unit) :
  (∀ r, sound (fn r)) → sound body → sound (defer_call fn body).
Proof.
  intros Hd Hb w o w' Hrun Hwf. unfold defer_call in Hrun.
  destruct (body w) as [o1 w1] eqn:E1.
  destruct (Hb _ _ _ E1 Hwf) as [Hwf1 Hev1].
  destruct o1 as [[]|r].
  - destruct (fn None w1) as [o2 w2] eqn:E2.
    destruct (Hd _ _ _ _ E2 Hwf1) as [Hwf2 Hev2].
    assert (w' = w2) as -> by (destruct o2; congruence).
    eauto using evolves_trans.
  - destruct (fn r w1) as [o2 w2] eqn:E2.
    destruct (Hd _ _ _ _ E2 Hwf1) as [Hwf2 Hev2].
    assert (w' = w2) as -> by (destruct o2 as [[]|]; congruence).
    eauto using evolves_trans.
Qed.

Lemma sound_new_block : sound (new_block (S := S)).
Proof.
  intros w o w' [= <- <-] Hwf. eauto using wf_alloc, evolves_alloc.
Qed.

Lemma sound_store_handled p w :
  wf w → err (deref w p) ≠ None →
  wf (store_handled p w).2 ∧ evolves w (store_handled p w).2.
Proof. eauto using wf_store_handled, evolves_store_handled. Qed.

(** The block a handler is called for still holds its failure when the
    handler returns. *)
Lemma evolves_err_kept w w1 p v :
  Unhandled (deref w p) v → evolves w w1 → err (deref w1 p) ≠ None.
Proof.
  intros [He _] Hev.
  destruct (Hev p _ (deref_allocated _ _ _ He)) as (b' & Hb' & He' & _).
  rewrite (deref_lookup _ _ _ Hb'). congruence.
Qed.

(** The common shape of the three dispatch functions: call the handler, then
    mark the block. *)
Lemma sound_call_then_mark {A B} (call : M A) (k : A → B) p w v :
  Unhandled (deref w p) v → sound call →
  ∀ o w', (a ← call; store_handled p;; mret (k a)) w = (o, w') →
  wf w → wf w' ∧ evolves w w'.
Proof.
  intros Hu Hc o w' Hrun Hwf. unfold_monad.
  destruct (call w) as [[a|e] w1] eqn:E.
  - destruct (Hc _ _ _ E Hwf) as [Hwf1 Hev1].
    simpl in Hrun. injection Hrun as <- <-.
    destruct (sound_store_handled p w1 Hwf1) as [Hwf2 Hev2];
      eauto using evolves_err_kept, evolves_trans.
  - injection Hrun as <- <-. eauto.
Qed.

Lemma sound_Try (fn : M unit) : sound fn → sound (Try fn).
Proof.
  intros Hfn w o w' Hrun Hwf. unfold Try, new_block, defer_recover in Hrun.
  unfold_monad.
  destruct (fn (alloc w)) as [o1 w2] eqn:E.
  destruct (Hfn _ _ _ E (wf_alloc _ Hwf)) as [Hwf2 Hev2].
  destruct o1 as [[]|[v|]]; simpl in Hrun; injection Hrun as <- <-.
  - eauto using evolves_trans, evolves_alloc.
  - split; [by apply wf_store_err | by apply evolves_store_err_fresh].
  - eauto using evolves_trans, evolves_alloc.
Qed.

Lemma sound_Catch T tb (h : val → M unit) :
  (∀ v, sound (h v)) → sound (Catch T tb h).
Proof.
  intros Hh w o w' Hrun Hwf. destruct tb as [p|].
  - destruct (unhandled (deref w p)) eqn:Eu.
    + apply unhandled_true in Eu as [v Hu].
      destruct (satisfies (type_of v) T) eqn:Es.
      * rewrite (Catch_fires _ _ _ _ _ Hu Es) in Hrun.
        eapply (sound_call_then_mark (h v) (λ _, Some p)); eauto.
      * rewrite Catch_skips in Hrun.
        -- injection Hrun as <- <-. eauto using evolves_refl.
        -- by eapply Unhandled_mismatch.
    + rewrite Catch_skips in Hrun.
      * injection Hrun as <- <-. eauto using evolves_refl.
      * intros v' Hu. apply Unhandled_unhandled in Hu. congruence.
  - unfold Catch in Hrun. unfold_monad. simpl in Hrun.
    injection Hrun as <- <-. eauto using wf_alloc, evolves_alloc.
Qed.

Lemma sound_CatchWithReturn T tb (h : val → M any) :
  (∀ v, sound (h v)) → sound (CatchWithReturn T tb h).
Proof.
  intros Hh w o w' Hrun Hwf. destruct tb as [p|].
  - destruct (unhandled (deref w p)) eqn:Eu.
    + apply unhandled_true in Eu as [v Hu].
      destruct (satisfies (type_of v) T) eqn:Es.
      * rewrite (CatchWithReturn_fires _ _ _ _ _ Hu Es) in Hrun.
        eapply (sound_call_then_mark (h v) (λ r, (r, Some p))); eauto.
      * rewrite CatchWithReturn_skips in Hrun.
        -- injection Hrun as <- <-. eauto using evolves_refl.
        -- by eapply Unhandled_mismatch.
    + rewrite CatchWithReturn_skips in Hrun.
      * injection Hrun as <- <-. eauto using evolves_refl.
      * intros v' Hu. apply Unhandled_unhandled in Hu. congruence.
  - unfold CatchWithReturn in Hrun. unfold_monad. simpl in Hrun.
    injection Hrun as <- <-. eauto using wf_alloc, evolves_alloc.
Qed.

Lemma sound_CatchAny tb (h : any → M unit) :
  (∀ e, sound (h e)) → sound (CatchAny tb h).
Proof.
  intros Hh w o w' Hrun Hwf. destruct tb as [p|].
  - destruct (unhandled (deref w p)) eqn:Eu.
    + apply unhandled_true in Eu as [v Hu].
      rewrite (CatchAny_fires _ _ _ _ Hu) in Hrun.
      eapply (sound_call_then_mark (h (Some v)) (λ _, Some p)); eauto.
    + rewrite CatchAny_skips in Hrun by done.
      injection Hrun as <- <-. eauto using evolves_refl.
  - unfold CatchAny in Hrun. unfold_monad. simpl in Hrun.
    injection Hrun as <- <-. eauto using wf_alloc, evolves_alloc.
Qed.

Lemma sound_Finally tb (fn : deferred) :
  (∀ r, sound (fn r)) → sound (Finally tb fn).
Proof.
  intros Hfn. destruct tb as [p|].
  - apply sound_defer_call; [exact Hfn|].
    apply sound_bind; [intros w o w' [= <- <-] Hwf; eauto using evolves_refl|].
    intros b. destruct (unhandled b); [apply sound_gopanic | apply sound_ret].
  - apply sound_bind; [apply Hfn | intros _; apply sound_ret].
Qed.

#[local] Hint Resolve sound_ret sound_bind sound_lift sound_gopanic
  sound_with_defer sound_defer_recover sound_defer_call sound_Try sound_Catch
  sound_CatchWithReturn sound_CatchAny sound_Finally : sound.

(** Every client program keeps the store well formed and only lets it
    evolve. *)
Lemma client_sound {A} (c : M A) : client c → sound c.
Proof. induction 1; eauto with sound. Qed.

(** ** Typed dispatch *)

(** A block is in one of four situations with respect to a type argument. *)
Lemma dispatch_cases T b :
  (∃ v, Unhandled b v ∧ satisfies (type_of v) T = true)
  ∨ (∃ v, Unhandled b v ∧ satisfies (type_of v) T = false)
  ∨ Handled b ∨ Clean b.
Proof.
  unfold Unhandled, Handled, Clean. destruct b as [[v|] []]; simpl; eauto.
  destruct (satisfies (type_of v) T) eqn:E; eauto 7.
Qed.

Lemma passes_mismatch T b v :
  passes T b → Unhandled b v → satisfies (type_of v) T = false.
Proof.
  unfold passes, Handled, Clean, Unhandled.
  intros [H | [H | (v' & [H1 H2] & H3)]] [He Hh]; congruence.
Qed.

(** C1, as the code has it: [Catch[T]] calls the handler, once and with the
    captured value, exactly when the block is unhandled and the type assertion
    [v.(T)] succeeds; it then marks the block handled when the handler has
    returned.  The assertion asks for the identical type when [T] is a
    concrete type and for an implementation of [T] when [T] is an interface
    type.  A block that is handled, clean or of another type comes back as it
    was, whatever the handler. *)
Theorem Catch_dispatches_on_type_assertion T p (h : val → M unit) w :
  (∀ v, Unhandled (deref w p) v → satisfies (type_of v) T = true →
     Catch T (Some p) h w = (h v;; store_handled p;; mret (Some p)) w
     ∧ ∀ w', h v w = (Normal (), w') →
         Catch T (Some p) h w = (Normal (Some p), (store_handled p w').2)
         ∧ Handled (deref (store_handled p w').2 p))
  ∧ (passes T (deref w p) →
     ∀ h' : val → M unit, Catch T (Some p) h' w = (Normal (Some p), w))
  ∧ ((∃ v, Unhandled (deref w p) v ∧ satisfies (type_of v) T = true)
     ∨ passes T (deref w p))
  ∧ (∀ t t' : ty, satisfies t (Concrete t') = true ↔ t = t')
  ∧ (∀ (t : ty) (i : iface), satisfies t (Interface i) = implements t i).
Proof.
  split_and!.
  - intros v Hu Hs. split; [by apply Catch_fires|].
    intros w' Hh. split.
    + rewrite (Catch_fires _ _ _ _ _ Hu Hs). unfold_monad. by rewrite Hh.
    + unfold Handled. by rewrite deref_store_handled.
  - intros Hp h'. apply Catch_skips. intros v. by apply passes_mismatch.
  - unfold passes.
    destruct (dispatch_cases T (deref w p)) as [?|[?|[?|?]]]; eauto.
  - intros t t'. apply satisfies_Concrete.
  - done.
Qed.

(** C5: on a handled block [Catch], [CatchWithReturn] and [CatchAny] call no
    handler and give the block back unchanged. *)
Theorem dispatch_on_Handled_is_noop T p (h : val → M unit) (hr : val → M any)
    (ha : any → M unit) w :
  Handled (deref w p) →
  Catch T (Some p) h w = (Normal (Some p), w)
  ∧ CatchWithReturn T (Some p) hr w = (Normal (None, Some p), w)
  ∧ CatchAny (Some p) ha w = (Normal (Some p), w).
Proof.
  intros Hh. pose proof (Handled_unhandled _ Hh) as Hu. split_and!.
  - apply Catch_skips. intros v ?%Unhandled_unhandled. congruence.
  - apply CatchWithReturn_skips. intros v ?%Unhandled_unhandled. congruence.
  - by apply CatchAny_skips.
Qed.

(** C7: [CatchWithReturn] gives the handler's value when the typed match
    succeeds and nil otherwise, and the block it returns, with the whole
    store, is the one [Catch] returns for the same type and the handler with
    its value dropped. *)
Theorem CatchWithReturn_matches_Catch T tb (h : val → M any) w :
  (r ← CatchWithReturn T tb h; mret r.2) w = Catch T tb (λ v, h v;; mret ()) w
  ∧ (∀ p v result w', tb = Some p →
       Unhandled (deref w p) v → satisfies (type_of v) T = true →
       h v w = (Normal result, w') →
       CatchWithReturn T tb h w
       = (Normal (result, tb), (store_handled p w').2))
  ∧ (∀ p, tb = Some p → passes T (deref w p) →
       CatchWithReturn T tb h w = (Normal (None, tb), w))
  ∧ (tb = None →
       CatchWithReturn T tb h w = (Normal (None, Some (fresh_loc w)), alloc w)).
Proof.
  split_and!.
  - destruct tb as [p|]; [|done].
    unfold CatchWithReturn, Catch. unfold_monad.
    destruct (unhandled (deref w p)); [|done].
    destruct (type_assert T (err (deref w p))) as [e|]; [|done].
    by destruct (h e w) as [[r|r] w1].
  - intros p v result w' -> Hu Hs Hh.
    rewrite (CatchWithReturn_fires _ _ _ _ _ Hu Hs). unfold_monad.
    by rewrite Hh.
  - intros p -> Hp. apply CatchWithReturn_skips.
    intros v. by apply passes_mismatch.
  - by intros ->.
Qed.

(** C9: a handler that panics takes the dispatch call with it: the call
    leaves with the handler's payload and in the world the handler left, in
    which the package has not marked the block.  If the handler itself left
    the block alone, it is still unhandled with its captured value. *)
Theorem handler_panic_leaves_block_unhandled T p (h : val → M unit)
    (hr : val → M any) (ha : any → M unit) w v e w' :
  Unhandled (deref w p) v →
  (satisfies (type_of v) T = true → h v w = (Panicking e, w') →
     Catch T (Some p) h w = (Panicking e, w'))
  ∧ (satisfies (type_of v) T = true → hr v w = (Panicking e, w') →
     CatchWithReturn T (Some p) hr w = (Panicking e, w'))
  ∧ (ha (Some v) w = (Panicking e, w') →
     CatchAny (Some p) ha w = (Panicking e, w'))
  ∧ (heap w' !! p = heap w !! p → Unhandled (deref w' p) v).
Proof.
  intros Hu. split_and!.
  - intros Hs Hh. rewrite (Catch_fires _ _ _ _ _ Hu Hs).
    unfold_monad. by rewrite Hh.
  - intros Hs Hh. rewrite (CatchWithReturn_fires _ _ _ _ _ Hu Hs).
    unfold_monad. by rewrite Hh.
  - intros Hh. rewrite (CatchAny_fires _ _ _ _ Hu).
    unfold_monad. by rewrite Hh.
  - intros Hf. unfold deref in *. by rewrite Hf.
Qed.


(** ** Chains *)

Lemma run_stage_fires p v (s : stage) call w :
  Unhandled (deref w p) v → stage_call s v = Some call →
  run_stage (Some p) s w = (call;; store_handled p;; mret (Some p)) w.
Proof.
  intros Hu. destruct s as [T h|T h|h]; cbn [run_stage stage_call].
  - destruct (satisfies (type_of v) T) eqn:Hs; intros [= <-].
    by apply Catch_fires.
  - destruct (satisfies (type_of v) T) eqn:Hs; intros [= <-].
    unfold_monad. rewrite (CatchWithReturn_fires _ _ _ _ _ Hu Hs).
    unfold_monad. by destruct (h v w) as [[r|r] w1].
  - intros [= <-]. by apply CatchAny_fires.
Qed.

Lemma run_stage_skips p v (s : stage) w :
  Unhandled (deref w p) v → stage_call s v = None →
  run_stage (Some p) s w = (Normal (Some p), w).
Proof.
  intros Hu. destruct s as [T h|T h|h]; cbn [run_stage stage_call];
    [| |discriminate].
  - destruct (satisfies (type_of v) T) eqn:Hs; [discriminate|]. intros _.
    apply Catch_skips. by eapply Unhandled_mismatch.
  - destruct (satisfies (type_of v) T) eqn:Hs; [discriminate|]. intros _.
    unfold_monad. rewrite CatchWithReturn_skips; [done|].
    by eapply Unhandled_mismatch.
Qed.

Lemma run_stage_settled p (s : stage) w :
  unhandled (deref w p) = false →
  run_stage (Some p) s w = (Normal (Some p), w).
Proof.
  intros Hu.
  assert (∀ T v, Unhandled (deref w p) v → satisfies (type_of v) T = false)
    as Hno by (intros T v ?%Unhandled_unhandled; congruence).
  destruct s as [T h|T h|h]; cbn [run_stage].
  - apply Catch_skips, Hno.
  - unfold_monad. by rewrite CatchWithReturn_skips by apply Hno.
  - by apply CatchAny_skips.
Qed.

(** Once the block is handled or clean the rest of a chain does nothing. *)
Lemma run_chain_settled p (c : list stage) w :
  unhandled (deref w p) = false →
  run_chain (Some p) c w = (Normal (Some p), w).
Proof.
  intros Hu. induction c as [|s c IH]; [done|].
  simpl. unfold_monad. by rewrite run_stage_settled.
Qed.

Lemma unhandled_store_handled p w :
  unhandled (deref (store_handled p w).2 p) = false.
Proof.
  rewrite deref_store_handled. unfold unhandled; simpl. apply andb_false_r.
Qed.

Lemma run_chain_first_match p v (c : list stage) w :
  Unhandled (deref w p) v →
  run_chain (Some p) c w =
    match first_match c v with
    | Some call => (call;; store_handled p;; mret (Some p)) w
    | None => (Normal (Some p), w)
    end.
Proof.
  intros Hu. induction c as [|s c IH]; [done|].
  simpl. destruct (stage_call s v) as [call|] eqn:Hs.
  - unfold_monad. rewrite (run_stage_fires _ _ _ _ _ Hu Hs). unfold_monad.
    destruct (call w) as [[[]|e] w1]; [|done].
    apply run_chain_settled, unhandled_store_handled.
  - unfold_monad. by rewrite (run_stage_skips _ _ _ _ Hu Hs).
Qed.

Lemma first_match_CatchAny (c : list stage) (h : any → M unit) v :
  first_match (c ++ [StCatchAny h]) v
  = Some (default (h (Some v)) (first_match c v)).
Proof.
  induction c as [|s c IH]; [done|].
  simpl. by destruct (stage_call s v).
Qed.

(** ** Capture *)

Lemma Try_run (fn : M unit) w o w2 :
  fn (alloc w) = (o, w2) →
  Try fn w
  = (Normal (Some (fresh_loc w)),
     if not_nil (recovered o)
     then (store_err (fresh_loc w) (recovered o) w2).2 else w2).
Proof.
  intros Hfn. unfold Try, new_block, defer_recover. unfold_monad.
  rewrite Hfn. destruct o as [[]|[v|]]; done.
Qed.

(** A client cannot reach the block [Try] has allocated for it. *)
Lemma client_keeps_fresh_block {A} (c : M A) w o w2 :
  wf w → client c → c (alloc w) = (o, w2) →
  deref w2 (fresh_loc w) = zero_block.
Proof.
  intros Hwf Hc Hrun.
  destruct (client_sound c Hc _ _ _ Hrun (wf_alloc _ Hwf)) as [Hwf2 Hev].
  destruct (Hev (fresh_loc w) zero_block) as (b & Hb & He & _).
  { unfold alloc; simpl. apply lookup_insert_eq. }
  rewrite (deref_lookup _ _ _ Hb). specialize (Hwf2 _ _ Hb).
  destruct b as [e []]; simpl in *; [|by subst].
  subst e. by destruct Hwf2.
Qed.

Lemma Try_block (fn : M unit) w o w2 :
  wf w → client fn → fn (alloc w) = (o, w2) →
  deref (Try fn w).2 (fresh_loc w)
  = {| err := recovered o; handled := false |}.
Proof.
  intros Hwf Hc Hfn. rewrite (Try_run _ _ _ _ Hfn). cbn [snd].
  pose proof (client_keeps_fresh_block _ _ _ _ Hwf Hc Hfn) as Hz.
  destruct (recovered o) as [v|]; cbn [not_nil].
  - rewrite deref_store_err. by rewrite Hz.
  - done.
Qed.

(** ** Cleanup *)

(** A [func()] that does not call [recover()] does the same called and
    deferred. *)
Lemma invoke_plain (c : M unit) w : invoke (plain c) w = c w.
Proof.
  unfold invoke, plain. unfold_monad. by destruct (c w) as [[[]|e] w'].
Qed.

(** [with_defer] is [defer_call] of a function that does not call
    [recover()], and [defer_recover] is [defer_call] of one that does. *)
Lemma defer_call_plain (d body : M unit) w :
  defer_call (plain d) body w = with_defer d body w.
Proof.
  unfold defer_call, with_defer, plain. unfold_monad.
  destruct (body w) as [[[]|r] w1]; by destruct (d w1) as [[[]|e] w2].
Qed.

Lemma defer_call_recovering (d : any → M unit) (body : M unit) w :
  defer_call (recovering d) body w = defer_recover d body w.
Proof.
  unfold defer_call, defer_recover, recovering. unfold_monad.
  destruct (body w) as [[[]|r] w1]; by destruct (d _ w1) as [[[]|e] w2].
Qed.

Lemma Finally_nil (cleanup : deferred) w :
  Finally None cleanup w = invoke cleanup w.
Proof. done. Qed.

Lemma Finally_settled p (cleanup : deferred) w :
  unhandled (deref w p) = false →
  Finally (Some p) cleanup w = invoke cleanup w.
Proof.
  intros Hu. unfold Finally, defer_call, invoke. unfold_monad. rewrite Hu.
  by destruct (cleanup None w) as [[[]|e] w'].
Qed.

(** On an unhandled block [Finally] is [defer cleanup(); panic(v)]: the
    cleanup runs with the payload in flight. *)
Lemma Finally_unhandled p v (cleanup : deferred) w :
  Unhandled (deref w p) v →
  Finally (Some p) cleanup w = defer_call cleanup (gopanic (Some v)) w.
Proof.
  intros Hu. unfold Finally, defer_call, gopanic. unfold_monad.
  rewrite (Unhandled_unhandled _ _ Hu). by destruct Hu as [-> _].
Qed.

(** The three ways [defer cleanup(); panic(v)] ends. *)
Lemma reraise_returned (cleanup : deferred) v w w' :
  cleanup (Some v) w = (Normal false, w') →
  defer_call cleanup (gopanic (Some v)) w = (Panicking (Some v), w').
Proof. intros Hc. unfold defer_call, gopanic. by rewrite Hc. Qed.

Lemma reraise_stopped (cleanup : deferred) v w w' :
  cleanup (Some v) w = (Normal true, w') →
  defer_call cleanup (gopanic (Some v)) w = (Normal (), w').
Proof. intros Hc. unfold defer_call, gopanic. by rewrite Hc. Qed.

Lemma reraise_replaced (cleanup : deferred) v e w w' :
  cleanup (Some v) w = (Panicking e, w') →
  defer_call cleanup (gopanic (Some v)) w = (Panicking e, w').
Proof. intros Hc. unfold defer_call, gopanic. by rewrite Hc. Qed.

Lemma reraise_plain (cleanup : M unit) v w :
  defer_call (plain cleanup) (gopanic (Some v)) w
  = (cleanup;; gopanic (Some v)) w.
Proof.
  unfold defer_call, plain, gopanic. unfold_monad.
  by destruct (cleanup w) as [[[]|e] w'].
Qed.

(** ** Chains written by a client *)

Lemma client_run_stage tb (s : stage (S := S)) :
  client_stage s → client (run_stage tb s).
Proof.
  destruct s as [T h|T h|h]; cbn [client_stage run_stage]; intros Hs.
  - by apply client_Catch.
  - apply client_bind; [by apply client_CatchWithReturn|].
    intros r. apply client_ret.
  - by apply client_CatchAny.
Qed.

Lemma client_run_chain (c : list (stage (S := S))) :
  Forall client_stage c → ∀ tb, client (run_chain tb c).
Proof.
  induction 1 as [|s c Hs _ IH]; intros tb; cbn [run_chain].
  - apply client_ret.
  - apply client_bind; [by apply client_run_stage | exact IH].
Qed.

Lemma client_plain (c : M unit) : client c → ∀ r, client (plain c r).
Proof.
  intros Hc r. apply client_bind; [done|]. intros _. apply client_ret.
Qed.

Lemma client_try_catch_finally (fn : M unit) (c : list stage)
    (cleanup : deferred) :
  client fn → Forall client_stage c → (∀ r, client (cleanup r)) →
  client (try_catch_finally fn c cleanup).
Proof.
  intros Hfn Hc Hcl. unfold try_catch_finally.
  apply client_bind; [by apply client_Try|]. intros tb.
  apply client_bind; [by apply client_run_chain|]. intros tb'.
  by apply client_Finally.
Qed.

(** ** The claims on chains, capture and cleanup *)

(** C2, as the code has it: along a chain of dispatch calls on an unhandled
    block exactly one handler is called, the one of the first stage in call
    order whose type assertion accepts the payload (identical type for a
    concrete type argument, implementation for an interface type argument);
    the stages before it and after it leave the block alone.  A chain that
    ends in [CatchAny] therefore always calls one handler: the first typed
    match, or else the [CatchAny] handler. *)
Theorem chain_calls_first_accepting_stage p v (c : list stage)
    (ha : any → M unit) w :
  Unhandled (deref w p) v →
  run_chain (Some p) c w =
    match first_match c v with
    | Some call => (call;; store_handled p;; mret (Some p)) w
    | None => (Normal (Some p), w)
    end
  ∧ run_chain (Some p) (c ++ [StCatchAny ha]) w =
      (default (ha (Some v)) (first_match c v);;
       store_handled p;; mret (Some p)) w.
Proof.
  intros Hu. split; [by apply run_chain_first_match|].
  by rewrite (run_chain_first_match _ _ _ _ Hu), first_match_CatchAny.
Qed.

(** C3, as the code has it: [Finally] runs the cleanup once whatever the
    block.  On a nil block the cleanup is called and nothing is raised.  On a
    block in the heap the cleanup is deferred, and what follows is decided on
    the block as it is when [Finally] is called, before the cleanup runs.  On
    a handled or clean block the cleanup runs with nothing in flight, and that
    is all.  On a block unhandled with [v] the cleanup runs with [v] in
    flight: when it returns without having called [recover()], [v] is raised
    again, the same value, in the world the cleanup left, and an enclosing
    [Try] captures a block that is unhandled with [v]. *)
Theorem Finally_runs_cleanup_then_reraises tb (cleanup : deferred) w :
  (tb = None → Finally tb cleanup w = invoke cleanup w)
  ∧ (∀ p, tb = Some p → Handled (deref w p) ∨ Clean (deref w p) →
       Finally tb cleanup w = invoke cleanup w)
  ∧ (∀ p v, tb = Some p → Unhandled (deref w p) v →
       Finally tb cleanup w = defer_call cleanup (gopanic (Some v)) w
       ∧ ∀ w', cleanup (Some v) w = (Normal false, w') →
           Finally tb cleanup w = (Panicking (Some v), w'))
  ∧ (∀ p v w', tb = Some p → Unhandled (deref w p) v →
       wf w → (∀ r, client (cleanup r)) →
       cleanup (Some v) (alloc w) = (Normal false, w') →
       Try (Finally tb cleanup) w
       = (Normal (Some (fresh_loc w)),
          (store_err (fresh_loc w) (Some v) w').2)
       ∧ Unhandled
           (deref (store_err (fresh_loc w) (Some v) w').2 (fresh_loc w)) v).
Proof.
  split_and!.
  - by intros ->.
  - intros p -> [H|H]; apply Finally_settled;
      eauto using Handled_unhandled, Clean_unhandled.
  - intros p v -> Hu. rewrite (Finally_unhandled _ _ _ _ Hu).
    split; [done|]. intros w' Hc. by apply reraise_returned.
  - intros p v w' -> Hu Hwf Hcl Hc.
    assert (Finally (Some p) cleanup (alloc w) = (Panicking (Some v), w'))
      as Hf.
    { rewrite (Finally_unhandled _ v).
      - by apply reraise_returned.
      - destruct Hu as [He Hh]. rewrite (deref_alloc _ _ _ He). done. }
    pose proof (Try_block _ _ _ _ Hwf (client_Finally _ _ Hcl) Hf) as Hb.
    rewrite (Try_run _ _ _ _ Hf) in *. cbn [recovered not_nil snd] in *.
    split; [done|]. by rewrite Hb.
Qed.

(** C4, as the code has it: a failure raised inside [Try] with a non-nil
    payload is captured unchanged.  The first accepting stage of the chain is
    called with it, and the cleanup then runs with nothing in flight; when no
    stage accepts it, the cleanup runs with it in flight, and [Finally]
    raises it again, the same value, once the cleanup has returned without
    having called [recover()]. *)
Theorem raised_failure_is_handled_or_reraised (fn : M unit) v
    (c : list stage) (cleanup : deferred) w w2 :
  wf w → client fn → fn (alloc w) = (Panicking (Some v), w2) →
  Try fn w
  = (Normal (Some (fresh_loc w)), (store_err (fresh_loc w) (Some v) w2).2)
  ∧ Unhandled (deref (store_err (fresh_loc w) (Some v) w2).2 (fresh_loc w)) v
  ∧ try_catch_finally fn c cleanup w =
      match first_match c v with
      | Some call =>
          (call;; store_handled (fresh_loc w);; invoke cleanup)
            (store_err (fresh_loc w) (Some v) w2).2
      | None =>
          defer_call cleanup (gopanic (Some v))
            (store_err (fresh_loc w) (Some v) w2).2
      end
  ∧ (first_match c v = None →
     ∀ w3, cleanup (Some v) (store_err (fresh_loc w) (Some v) w2).2
           = (Normal false, w3) →
       try_catch_finally fn c cleanup w = (Panicking (Some v), w3)).
Proof.
  intros Hwf Hcl Hfn.
  pose proof (Try_block _ _ _ _ Hwf Hcl Hfn) as Hb.
  pose proof (Try_run _ _ _ _ Hfn) as Ht.
  cbn [recovered not_nil] in *. rewrite Ht in Hb. cbn [snd] in Hb.
  assert (Unhandled
            (deref (store_err (fresh_loc w) (Some v) w2).2 (fresh_loc w)) v)
    as Hu by (by rewrite Hb).
  assert (try_catch_finally fn c cleanup w =
      match first_match c v with
      | Some call =>
          (call;; store_handled (fresh_loc w);; invoke cleanup)
            (store_err (fresh_loc w) (Some v) w2).2
      | None =>
          defer_call cleanup (gopanic (Some v))
            (store_err (fresh_loc w) (Some v) w2).2
      end) as Hrun.
  { unfold try_catch_finally. unfold_monad. rewrite Ht.
    rewrite (run_chain_first_match _ _ _ _ Hu).
    destruct (first_match c v) as [call|].
    - unfold_monad.
      destruct (call (store_err (fresh_loc w) (Some v) w2).2)
        as [[[]|e] w3]; [|done].
      apply Finally_settled, unhandled_store_handled.
    - by apply Finally_unhandled. }
  split_and!; [done..|].
  intros Hnone w3 Hc. rewrite Hrun, Hnone. by apply reraise_returned.
Qed.

(** C6: when the computation returns, [Try] yields a clean block, no stage of
    a following chain calls its handler, and [Finally] runs the cleanup once,
    with nothing in flight, and raises nothing of its own. *)
Theorem clean_run_only_runs_cleanup (fn : M unit) (c : list stage)
    (cleanup : deferred) w w' :
  wf w → client fn → fn (alloc w) = (Normal (), w') →
  Try fn w = (Normal (Some (fresh_loc w)), w')
  ∧ deref w' (fresh_loc w) = zero_block
  ∧ run_chain (Some (fresh_loc w)) c w' = (Normal (Some (fresh_loc w)), w')
  ∧ Finally (Some (fresh_loc w)) cleanup w' = invoke cleanup w'
  ∧ try_catch_finally fn c cleanup w = invoke cleanup w'.
Proof.
  intros Hwf Hcl Hfn.
  pose proof (Try_run _ _ _ _ Hfn) as Ht. cbn [recovered not_nil] in Ht.
  pose proof (client_keeps_fresh_block _ _ _ _ Hwf Hcl Hfn) as Hz.
  assert (unhandled (deref w' (fresh_loc w)) = false) as Hu by (by rewrite Hz).
  split_and!; [done | done | by apply run_chain_settled
              | by apply Finally_settled |].
  unfold try_catch_finally. unfold_monad.
  rewrite Ht, run_chain_settled by done. by apply Finally_settled.
Qed.


End Properties.

(** * The claims on the payloads of the repository *)

Import Sample.
#[local] Existing Instance go120.
#[local] Open Scope string_scope.

Lemma wf_start : wf start.
Proof. intros p b H. cbn in H. rewrite lookup_empty in H. discriminate. Qed.

Lemma client_say (step : string) : client (say step).
Proof. apply client_lift. Qed.

(** ** The scenarios of the specification *)

(** Scenario A: a [ValidationError] skips the stage for [DatabaseError], is
    handled by the stage for [ValidationError], and the cleanup runs; nothing
    propagates. *)
Example scenario_A :
  try_catch_finally (Throw (Some name_required)) workflow_chain
    (plain (say "finally_executed")) start
  = (Normal (),
     {| heap := {[ 0 := {| err := Some name_required; handled := true |} ]};
        user := ["validation_handler_called"; "finally_executed"] |}).
Proof. reflexivity. Qed.

(** Scenario B: a string skips [Catch[int]] and is handled by [CatchAny]. *)
Example scenario_B :
  try_catch_finally (Throw (Some (VString "plain string")))
    [ StCatch (Concrete TInt) (λ _, say "int");
      StCatchAny (λ e, say "any") ]
    (plain (say "cleanup")) start
  = (Normal (),
     {| heap := {[ 0 := {| err := Some (VString "plain string");
                           handled := true |} ]};
        user := ["any"; "cleanup"] |}).
Proof. reflexivity. Qed.

(** Scenario C: a [BusinessLogicError] that no stage accepts is re-raised by
    [Finally] after the cleanup, and an enclosing [Try] captures that value. *)
Example scenario_C :
  let inner :=
    try_catch_finally (Throw (Some age_limit))
      [ StCatch (Concrete TValidationError) (λ _, say "validation") ]
      (plain (say "cleanup")) in
  inner start
  = (Panicking (Some age_limit),
     {| heap := {[ 0 := {| err := Some age_limit; handled := false |} ]};
        user := ["cleanup"] |})
  ∧ (Try inner start).1 = Normal (Some 0)
  ∧ deref (Try inner start).2 0 = {| err := Some age_limit; handled := false |}
  ∧ user (Try inner start).2 = ["cleanup"].
Proof. repeat split. Qed.

(** ** The tests of the package *)

Example TestTry_NoPanic :
  Try (mret ()) start
  = (Normal (Some 0), {| heap := {[ 0 := zero_block ]}; user := [] |}).
Proof. reflexivity. Qed.

Example TestTry_WithPanic :
  Try (gopanic (Some (VString "test error"))) start
  = (Normal (Some 0),
     {| heap := {[ 0 := {| err := Some (VString "test error");
                           handled := false |} ]};
        user := [] |}).
Proof. reflexivity. Qed.

Example TestCatch_NonMatchingType :
  (tb ← Try (gopanic (Some (VInt 123)));
   Catch (Concrete TString) tb (λ _, say "handlerCalled")) start
  = (Normal (Some 0),
     {| heap := {[ 0 := {| err := Some (VInt 123); handled := false |} ]};
        user := [] |}).
Proof. reflexivity. Qed.

Example TestCatch_MultipleHandlers :
  (tb ← Try (gopanic (Some (VString "test error")));
   tb ← Catch (Concrete TInt) tb (λ _, say "intHandlerCalled");
   Catch (Concrete TString) tb (λ _, say "stringHandlerCalled")) start
  = (Normal (Some 0),
     {| heap := {[ 0 := {| err := Some (VString "test error");
                           handled := true |} ]};
        user := ["stringHandlerCalled"] |}).
Proof. reflexivity. Qed.

Example TestCatchWithReturn :
  (tb ← Try (gopanic (Some (VString "test error")));
   CatchWithReturn (Concrete TString) tb (λ e, mret (Some e))) start
  = (Normal (Some (VString "test error"), Some 0),
     {| heap := {[ 0 := {| err := Some (VString "test error");
                           handled := true |} ]};
        user := [] |}).
Proof. reflexivity. Qed.

Example TestCatchAny :
  (tb ← Try (gopanic (Some (VString "test error")));
   CatchAny tb (λ _, say "handlerCalled")) start
  = (Normal (Some 0),
     {| heap := {[ 0 := {| err := Some (VString "test error");
                           handled := true |} ]};
        user := ["handlerCalled"] |}).
Proof. reflexivity. Qed.

Example TestFinally_WithUnhandledException :
  (tb ← Try (gopanic (Some (VString "test error")));
   Finally tb (plain (say "finallyExecuted"))) start
  = (Panicking (Some (VString "test error")),
     {| heap := {[ 0 := {| err := Some (VString "test error");
                           handled := false |} ]};
        user := ["finallyExecuted"] |}).
Proof. reflexivity. Qed.

Example TestThrow :
  Throw (Some (VString "test error")) start
  = (Panicking (Some (VString "test error")), start).
Proof. reflexivity. Qed.

(** On the nil pointer a dispatch function calls no handler and returns a new
    zero block. *)
Lemma dispatch_on_nil (T : type_arg) (h : val → M (list string) ())
    (hr : val → M (list string) any) (ha : any → M (list string) ())
    (w : world (list string)) :
  Catch T None h w = (Normal (Some (fresh_loc w)), alloc w)
  ∧ CatchWithReturn T None hr w = (Normal (None, Some (fresh_loc w)), alloc w)
  ∧ CatchAny None ha w = (Normal (Some (fresh_loc w)), alloc w).
Proof. done. Qed.

(** ** C1 *)

(** C1 as stated fails: in demo 3 the payload is a [*strconv.NumError], the
    declared type is the interface [error], not the payload's own type, and
    [Catch[error]] calls the handler and marks the block handled. *)
Lemma Catch_error_accepts_NumError :
  Unhandled (deref (raised num_error) 0) num_error
  ∧ exactly (type_of num_error) (Interface IError) = false
  ∧ Catch (Interface IError) (Some 0) (λ _, say "Standard error")
      (raised num_error)
    = (Normal (Some 0),
       {| heap := {[ 0 := {| err := Some num_error; handled := true |} ]};
          user := ["Standard error"] |}).
Proof. repeat split. Qed.

(** ** C2 *)

Lemma chain_calls_first_accepting_stage_witness :
  Unhandled (deref (raised name_required) 0) name_required
  ∧ run_chain (Some 0) workflow_chain (raised name_required)
    = (Normal (Some 0),
       {| heap := {[ 0 := {| err := Some name_required; handled := true |} ]};
          user := ["validation_handler_called"] |})
  ∧ run_chain (Some 0) (workflow_chain ++ [StCatchAny (λ _, say "any")])
      (raised name_required)
    = (Normal (Some 0),
       {| heap := {[ 0 := {| err := Some name_required; handled := true |} ]};
          user := ["validation_handler_called"] |}).
Proof.
  split; [repeat split|].
  exact (chain_calls_first_accepting_stage 0 name_required workflow_chain
           (λ _, say "any") (raised name_required) (conj eq_refl eq_refl)).
Defined.

(** C2 as stated fails: the first stage whose declared type is exactly
    [ValidationError] is the second one, but the first stage, declared for
    the interface [error], is the one whose handler is called. *)
Lemma chain_calls_error_stage_first :
  first_match_exact error_first_chain name_required = Some (say "validation")
  ∧ run_chain (Some 0) error_first_chain (raised name_required)
    = (Normal (Some 0),
       {| heap := {[ 0 := {| err := Some name_required; handled := true |} ]};
          user := ["error"] |})
  ∧ run_chain (Some 0) error_first_chain (raised name_required)
    ≠ (say "validation";; store_handled 0;; mret (Some 0))
        (raised name_required).
Proof. repeat split. intros [=]. Qed.

(** ** C3 *)

(** [TestFinally_WithUnhandledException]: the cleanup returns without calling
    [recover()], and [Finally] raises the captured value again. *)
Lemma Finally_runs_cleanup_then_reraises_witness :
  Unhandled (deref (raised (VString "test error")) 0) (VString "test error")
  ∧ plain (say "finallyExecuted") (Some (VString "test error"))
      (raised (VString "test error"))
    = (Normal false,
       {| heap := {[ 0 := {| err := Some (VString "test error");
                             handled := false |} ]};
          user := ["finallyExecuted"] |})
  ∧ Finally (Some 0) (plain (say "finallyExecuted"))
      (raised (VString "test error"))
    = (Panicking (Some (VString "test error")),
       {| heap := {[ 0 := {| err := Some (VString "test error");
                             handled := false |} ]};
          user := ["finallyExecuted"] |}).
Proof.
  split_and!; [by split | reflexivity |].
  exact (proj2
           (proj1 (proj2 (proj2
              (Finally_runs_cleanup_then_reraises (Some 0)
                 (plain (say "finallyExecuted"))
                 (raised (VString "test error")))))
              0 (VString "test error") eq_refl (conj eq_refl eq_refl))
           _ eq_refl).
Defined.

(** C3 as stated fails in two ways, both because the cleanup is deferred and
    the block is tested before it runs.  A cleanup that calls [recover()]
    stops the panic: the block is still unhandled when the cleanup has
    returned, and [Finally] returns.  A cleanup that dispatches the block
    leaves it handled, and [Finally] raises the value all the same. *)
Lemma Finally_tests_block_before_cleanup :
  Unhandled (deref (raised age_limit) 0) age_limit
  ∧ Finally (Some 0) (recovering (λ _, say "cleanup")) (raised age_limit)
    = (Normal (),
       {| heap := {[ 0 := {| err := Some age_limit; handled := false |} ]};
          user := ["cleanup"] |})
  ∧ Unhandled
      (deref
         {| heap := {[ 0 := {| err := Some age_limit; handled := false |} ]};
            user := ["cleanup"] |} 0)
      age_limit
  ∧ Finally (Some 0)
      (plain (CatchAny (Some 0) (λ _, say "late handler");; mret ()))
      (raised age_limit)
    = (Panicking (Some age_limit),
       {| heap := {[ 0 := {| err := Some age_limit; handled := true |} ]};
          user := ["late handler"] |})
  ∧ Handled
      (deref
         {| heap := {[ 0 := {| err := Some age_limit; handled := true |} ]};
            user := ["late handler"] |} 0).
Proof. repeat split. Qed.

(** ** C4 *)

Lemma raised_failure_is_handled_or_reraised_witness :
  wf start
  ∧ (say "try_block_executed";; Throw (Some name_required)) (alloc start)
    = (Panicking (Some name_required),
       {| heap := {[ 0 := zero_block ]}; user := ["try_block_executed"] |})
  ∧ try_catch_finally
      (say "try_block_executed";; Throw (Some name_required))
      workflow_chain (plain (say "finally_executed")) start
    = (Normal (),
       {| heap := {[ 0 := {| err := Some name_required; handled := true |} ]};
          user := ["try_block_executed"; "validation_handler_called";
                   "finally_executed"] |}).
Proof.
  split_and!; [apply wf_start | reflexivity |].
  refine (proj1 (proj2 (proj2
    (raised_failure_is_handled_or_reraised
       (say "try_block_executed";; Throw (Some name_required)) name_required
       workflow_chain (plain (say "finally_executed")) start
       {| heap := {[ 0 := zero_block ]}; user := ["try_block_executed"] |}
       wf_start _ eq_refl)))).
  apply client_bind; [apply client_say | intros; apply client_Throw].
Defined.

(** C4 as stated fails for the nil payload.  Up to Go 1.20 [Try] recovers nil,
    the guard [r != nil] leaves the block clean, no handler is called and
    [Finally] raises nothing: the failure is gone.  From Go 1.21 what is
    captured is a [*runtime.PanicNilError], not the value that was thrown.
    It also fails when the cleanup calls [recover()]: a payload that no stage
    accepts is then given to no handler and is not raised again. *)
Lemma failure_is_dropped :
  try_catch_finally (Throw None) [StCatchAny (λ _, say "any")]
    (plain (say "cleanup")) start
  = (Normal (), {| heap := {[ 0 := zero_block ]}; user := ["cleanup"] |})
  ∧ (try_catch_finally (U := go121) (Throw None) [] (plain (say "cleanup"))
       start).1
    = @Panicking go121 () (Some VPanicNilError)
  ∧ (Try (U := go121) (S := list string) (Throw None) start).1
    = Normal (Some 0)
  ∧ err (deref (Try (U := go121) (S := list string) (Throw None) start).2 0)
    = Some VPanicNilError
  ∧ first_match workflow_chain age_limit = None
  ∧ try_catch_finally (Throw (Some age_limit)) workflow_chain
      (recovering (λ _, say "cleanup")) start
    = (Normal (),
       {| heap := {[ 0 := {| err := Some age_limit; handled := false |} ]};
          user := ["cleanup"] |}).
Proof. repeat split. Qed.

(** ** C5 *)

Lemma dispatch_on_Handled_is_noop_witness :
  Handled (deref settled 0)
  ∧ Catch (Concrete TValidationError) (Some 0) (λ _, say "validation") settled
    = (Normal (Some 0), settled)
  ∧ CatchWithReturn (Concrete TValidationError) (Some 0)
      (λ v, say "validation";; mret (Some v)) settled
    = (Normal (None, Some 0), settled)
  ∧ CatchAny (Some 0) (λ _, say "any") settled = (Normal (Some 0), settled).
Proof.
  split; [reflexivity|].
  exact (dispatch_on_Handled_is_noop (Concrete TValidationError) 0
           (λ _, say "validation") (λ v, say "validation";; mret (Some v))
           (λ _, say "any") settled eq_refl).
Defined.

(** ** C6 *)

Lemma clean_run_only_runs_cleanup_witness :
  wf start
  ∧ say "try_block_executed" (alloc start)
    = (Normal (),
       {| heap := {[ 0 := zero_block ]}; user := ["try_block_executed"] |})
  ∧ try_catch_finally (say "try_block_executed")
      (workflow_chain ++ [StCatchAny (λ _, say "any")])
      (plain (say "finally_executed")) start
    = (Normal (),
       {| heap := {[ 0 := zero_block ]};
          user := ["try_block_executed"; "finally_executed"] |}).
Proof.
  split_and!; [apply wf_start | reflexivity |].
  exact (proj2 (proj2 (proj2 (proj2
    (clean_run_only_runs_cleanup (say "try_block_executed")
       (workflow_chain ++ [StCatchAny (λ _, say "any")])
       (plain (say "finally_executed")) start
       {| heap := {[ 0 := zero_block ]}; user := ["try_block_executed"] |}
       wf_start (client_say _) eq_refl))))).
Defined.

(** ** C8 *)




(** ** C9 *)

(** Demo 5: the handler of the inner [Catch] throws, so the inner [Finally] and
    the rest of the outer computation are not reached; the outer [Try] captures
    the handler's payload, and the inner block, at address 1, is left
    unhandled. *)
Example demo5_NestedTryCatch_run (np : option go_val) :
  let run := demo.demo5_NestedTryCatch np (start (U := go_runtime np)) in
  run.1 = Normal ()
  ∧ user run.2
    = [ demo.nl +:+ "=== Demo 5: 嵌套异常处理 ===" +:+ demo.nl;
        "  Outer try block started" +:+ demo.nl;
        "    Inner try block started" +:+ demo.nl;
        "    ✓ Inner catch: name cannot be empty" +:+ demo.nl;
        "  ✓ Outer catch: failed inner validation: name" +:+ demo.nl;
        "  Nested example completed" +:+ demo.nl ]
  ∧ Unhandled (deref run.2 1)
      (VValidationError
         (errors.NewValidationError "name" "name cannot be empty" 1001))
  ∧ err (deref run.2 0)
    = Some (VBusinessLogicError
              (errors.NewBusinessLogicError "user_validation"
                 "failed inner validation: name"))
  ∧ Handled (deref run.2 0).
Proof. repeat split. Qed.

Lemma handler_panic_leaves_block_unhandled_witness :
  Unhandled (deref (raised name_required) 0) name_required
  ∧ Catch (Concrete TValidationError) (Some 0) (demo.demo5_inner_handler None)
      (raised name_required)
    = (Panicking
         (Some (VBusinessLogicError
            (errors.NewBusinessLogicError "user_validation"
               "failed inner validation: name"))),
       {| heap := {[ 0 := {| err := Some name_required; handled := false |} ]};
          user := ["    ✓ Inner catch: required" +:+ demo.nl] |})
  ∧ Unhandled
      (deref
         {| heap := {[ 0 := {| err := Some name_required; handled := false |} ]};
            user := ["    ✓ Inner catch: required" +:+ demo.nl] |} 0)
      name_required.
Proof.
  pose proof (handler_panic_leaves_block_unhandled
              (Concrete TValidationError) 0 (demo.demo5_inner_handler None)
              (λ v, demo.demo5_inner_handler None v;; mret None)
              (λ _, demo.demo5_inner_handler None name_required)
              (raised name_required) name_required
              (Some (VBusinessLogicError
                 (errors.NewBusinessLogicError "user_validation"
                    "failed inner validation: name")))
              {| heap :=
                   {[ 0 := {| err := Some name_required; handled := false |} ]};
                 user := ["    ✓ Inner catch: required" +:+ demo.nl] |}
              (conj eq_refl eq_refl)) as (Hc & _ & _ & Hb).
  split_and!; [by split | exact (Hc eq_refl eq_refl) | exact (Hb eq_refl)].
Defined.

(** ** C10 *)


(** * Further properties of the package *)

Ltac unfold_monad :=
  unfold mbind, M_bind, bind, mret, M_ret, ret, load in *.

Section Composition.
Context `{U : Universe} {S : Type}.
Implicit Types (w : world S) (p : loc) (tb : ptr) (b : TryBlock) (v : val).
Local Abbreviation M := (M S).
Local Abbreviation deferred := (deferred S).

(** ** The nil pointer *)

Lemma run_stage_nil (s : stage) w :
  run_stage None s w = (Normal (Some (fresh_loc w)), alloc w).
Proof. by destruct s. Qed.

Lemma unhandled_alloc_fresh w :
  unhandled (deref (alloc w) (fresh_loc w)) = false.
Proof. by rewrite deref_alloc_fresh. Qed.

Lemma run_chain_nil (s : stage) (c : list stage) w :
  run_chain None (s :: c) w = (Normal (Some (fresh_loc w)), alloc w).
Proof.
  cbn [run_chain]. unfold_monad. rewrite run_stage_nil.
  apply run_chain_settled, unhandled_alloc_fresh.
Qed.

(** ** Chains with the same first match *)

Lemma first_match_app (c c' : list (stage (S := S))) v :
  first_match (c ++ c') v
  = match first_match c v with
    | Some call => Some call
    | None => first_match c' v
    end.
Proof.
  induction c as [|s c IH]; [done|].
  cbn [app first_match]. by destruct (stage_call s v).
Qed.

(** Two chains that pick the same call for every payload are the same
    computation. *)
Lemma run_chain_ext (c c' : list (stage (S := S))) :
  (∀ v, first_match c v = first_match c' v) → (c = [] ↔ c' = []) →
  ∀ tb w, run_chain tb c w = run_chain tb c' w.
Proof.
  intros Hm Hnil [p|] w.
  - destruct (unhandled (deref w p)) eqn:Eu.
    + apply unhandled_true in Eu as [v Hu].
      by rewrite !(run_chain_first_match _ _ _ _ Hu), Hm.
    + by rewrite !run_chain_settled.
  - destruct c as [|s c], c' as [|s' c']; [done|..].
    + by destruct (proj1 Hnil eq_refl).
    + by destruct (proj2 Hnil eq_refl).
    + by rewrite !run_chain_nil.
Qed.

Lemma not_accepts (s : stage (S := S)) v : ¬ accepts s v → stage_call s v = None.
Proof.
  unfold accepts. destruct (stage_call s v); [|done].
  intros []. by eexists.
Qed.

Lemma accepts_StCatch T (h : val → M unit) v :
  accepts (StCatch T h) v ↔ satisfies (type_of v) T = true.
Proof.
  unfold accepts; cbn [stage_call].
  destruct (satisfies (type_of v) T).
  - split; [done | by eexists].
  - split; [by intros [? [=]] | done].
Qed.

(** ** The whole statement *)

(** What [tb := Try(fn); ...chain...; tb.Finally(cleanup)] does, from what
    [fn] does, when [fn] has not reached the block of the statement. *)
Lemma statement_run (fn : M unit) (c : list stage) (cleanup : deferred)
    w o w2 :
  fn (alloc w) = (o, w2) → deref w2 (fresh_loc w) = zero_block →
  try_catch_finally fn c cleanup w =
    match recovered o with
    | Some v =>
        match first_match c v with
        | Some call =>
            (call;; store_handled (fresh_loc w);; invoke cleanup)
              (store_err (fresh_loc w) (Some v) w2).2
        | None =>
            defer_call cleanup (gopanic (Some v))
              (store_err (fresh_loc w) (Some v) w2).2
        end
    | None => invoke cleanup w2
    end.
Proof.
  intros Hfn Hz. unfold try_catch_finally. unfold_monad.
  rewrite (Try_run _ _ _ _ Hfn). destruct (recovered o) as [v|]; cbn [not_nil].
  - assert (Unhandled
              (deref (store_err (fresh_loc w) (Some v) w2).2 (fresh_loc w)) v)
      as Hu by (by rewrite deref_store_err, Hz).
    rewrite (run_chain_first_match _ _ _ _ Hu).
    destruct (first_match c v) as [call|].
    + unfold_monad.
      destruct (call (store_err (fresh_loc w) (Some v) w2).2)
        as [[[]|e] w3]; [|done].
      apply Finally_settled, unhandled_store_handled.
    + by apply Finally_unhandled.
  - rewrite run_chain_settled by (by rewrite Hz).
    apply Finally_settled. by rewrite Hz.
Qed.

(** X1: [Try] absorbs every panic.  Whatever the computation does, [Try]
    returns, and returns a pointer that is not nil, to a block that did not
    exist before; apart from that block the world is the one the computation
    left. *)
Theorem Try_absorbs_every_panic (fn : M unit) w :
  (Try fn w).1 = Normal (Some (fresh_loc w))
  ∧ heap w !! fresh_loc w = None
  ∧ user (Try fn w).2 = user (fn (alloc w)).2
  ∧ ∀ q, q ≠ fresh_loc w →
      heap (Try fn w).2 !! q = heap (fn (alloc w)).2 !! q.
Proof.
  destruct (fn (alloc w)) as [o w2] eqn:Hfn. rewrite (Try_run _ _ _ _ Hfn).
  split_and!; [done | apply fresh_loc_free | ..];
    destruct (recovered o) as [v|]; cbn [not_nil snd]; try done.
  intros q Hq. cbn. by rewrite lookup_insert_ne.
Qed.

(** X2: a chain that starts on the nil pointer calls no handler: its first
    call allocates a zero block, the other calls pass it on, and [Finally]
    after it only runs the cleanup. *)
Theorem chain_on_nil_calls_no_handler (s : stage) (c : list stage)
    (cleanup : deferred) w :
  run_chain None (s :: c) w = (Normal (Some (fresh_loc w)), alloc w)
  ∧ (tb ← run_chain None (s :: c); Finally tb cleanup) w
    = invoke cleanup (alloc w)
  ∧ (tb ← run_chain None []; Finally tb cleanup) w = invoke cleanup w.
Proof.
  split_and!; [apply run_chain_nil | | done].
  unfold_monad. rewrite run_chain_nil.
  apply Finally_settled, unhandled_alloc_fresh.
Qed.

(** X3: a chain on a pointer that is not nil returns that pointer: the
    dispatch functions return the block they were given. *)
Theorem chain_returns_the_block_it_was_given p (c : list stage) w tb' w' :
  run_chain (Some p) c w = (Normal tb', w') → tb' = Some p.
Proof.
  destruct (unhandled (deref w p)) eqn:Eu.
  - apply unhandled_true in Eu as [v Hu].
    rewrite (run_chain_first_match _ _ _ _ Hu).
    destruct (first_match c v) as [call|]; [|congruence].
    unfold_monad. destruct (call w) as [[[]|e] w1]; simpl; congruence.
  - rewrite run_chain_settled by done. congruence.
Qed.

(** X4: a stage placed after a stage that accepts everything it accepts is
    dead: removing it does not change the chain.  This is why the README asks
    for the most specific [Catch] first. *)
Theorem stage_after_wider_stage_is_dead (s1 s2 : stage)
    (c1 c2 c3 : list stage) tb w :
  (∀ v, accepts s2 v → accepts s1 v) →
  run_chain tb (c1 ++ s1 :: c2 ++ s2 :: c3) w
  = run_chain tb (c1 ++ s1 :: c2 ++ c3) w.
Proof.
  intros Hw. apply run_chain_ext.
  - intros v. rewrite !first_match_app.
    destruct (first_match c1 v); [done|]. cbn [first_match].
    destruct (stage_call s1 v) eqn:E1; [done|]. rewrite !first_match_app.
    destruct (first_match c2 v); [done|]. cbn [first_match].
    rewrite (not_accepts s2 v); [done|].
    intros [call Hc]%Hw. congruence.
  - split; intros H; by destruct c1.
Qed.

(** X5: two neighbouring stages that accept no common payload can be
    exchanged. *)
Theorem disjoint_stages_commute (s1 s2 : stage) (c1 c2 : list stage) tb w :
  (∀ v, accepts s1 v → accepts s2 v → False) →
  run_chain tb (c1 ++ s1 :: s2 :: c2) w = run_chain tb (c1 ++ s2 :: s1 :: c2) w.
Proof.
  intros Hd. apply run_chain_ext.
  - intros v. rewrite !first_match_app.
    destruct (first_match c1 v); [done|]. cbn [first_match].
    destruct (stage_call s1 v) eqn:E1, (stage_call s2 v) eqn:E2; try done.
    destruct (Hd v); by eexists.
  - split; intros H; by destruct c1.
Qed.

(** X6: after a chain that ends in [CatchAny] has returned, [Finally] only
    runs the cleanup: it has nothing to re-raise. *)
Theorem Finally_after_CatchAny_only_cleans tb (c : list stage)
    (ha : any → M unit) (cleanup : deferred) w tb' w' :
  run_chain tb (c ++ [StCatchAny ha]) w = (Normal tb', w') →
  Finally tb' cleanup w' = invoke cleanup w'.
Proof.
  destruct tb as [p|].
  - destruct (unhandled (deref w p)) eqn:Eu.
    + apply unhandled_true in Eu as [v Hu].
      rewrite (run_chain_first_match _ _ _ _ Hu), first_match_CatchAny.
      unfold_monad.
      destruct (default (ha (Some v)) (first_match c v) w) as [[[]|e] w1];
        [|discriminate].
      intros [= <- <-]. apply Finally_settled, unhandled_store_handled.
    + rewrite run_chain_settled by done. intros [= <- <-].
      by apply Finally_settled.
  - assert (∃ (s : stage) (c' : list stage),
              (c ++ [StCatchAny ha])%list = s :: c') as (s & c' & ->)
      by (destruct c; by eexists _, _).
    rewrite run_chain_nil. intros [= <- <-].
    apply Finally_settled, unhandled_alloc_fresh.
Qed.

(** X7: when the cleanup panics, whatever [recover()] returns to it,
    [Finally] leaves with the payload of the cleanup on every block, nil
    included: the captured failure of an unhandled block is not re-raised. *)
Theorem cleanup_panic_replaces_failure tb (cleanup : deferred) w e w' :
  (∀ r, cleanup r w = (Panicking e, w')) →
  Finally tb cleanup w = (Panicking e, w').
Proof.
  intros Hc. destruct tb as [p|].
  - unfold Finally, defer_call, gopanic. unfold_monad.
    destruct (unhandled (deref w p)); by rewrite Hc.
  - unfold Finally, invoke. unfold_monad. by rewrite Hc.
Qed.

(** X8: for a type argument that every type satisfies, such as
    [interface{}], [Catch] is [CatchAny]. *)
Theorem Catch_of_universal_type_is_CatchAny T tb (h : val → M unit) w :
  (∀ t : ty, satisfies t T = true) →
  Catch T tb h w = CatchAny tb (as_any_handler h) w.
Proof.
  intros Hall. destruct tb as [p|]; [|done].
  unfold Catch, CatchAny. unfold_monad.
  destruct (unhandled (deref w p)) eqn:Eu; [|done].
  apply unhandled_true in Eu as [v [-> _]]. cbn. by rewrite Hall.
Qed.

(** X9: a failure that no stage of an inner statement accepts is dispatched by
    the chain of the enclosing statement with the same value, as if it had
    been raised there, once the inner cleanup has returned without having
    called [recover()]. *)
Theorem unhandled_failure_reaches_enclosing_statement (fn : M unit) v
    (c1 c2 : list stage) (cleanup1 cleanup2 : deferred) w w2 w4 :
  wf w → client fn → Forall client_stage c1 → (∀ r, client (cleanup1 r)) →
  fn (alloc (alloc w)) = (Panicking (Some v), w2) →
  first_match c1 v = None →
  cleanup1 (Some v) (store_err (fresh_loc (alloc w)) (Some v) w2).2
  = (Normal false, w4) →
  try_catch_finally (try_catch_finally fn c1 cleanup1) c2 cleanup2 w =
    match first_match c2 v with
    | Some call =>
        (call;; store_handled (fresh_loc w);; invoke cleanup2)
          (store_err (fresh_loc w) (Some v) w4).2
    | None =>
        defer_call cleanup2 (gopanic (Some v))
          (store_err (fresh_loc w) (Some v) w4).2
    end.
Proof.
  intros Hwf Hfn Hc1 Hcl Hrun Hnone Hclean.
  assert (try_catch_finally fn c1 cleanup1 (alloc w)
          = (Panicking (Some v), w4)) as Hinner.
  { rewrite (statement_run _ _ _ _ _ _ Hrun).
    - cbn [recovered]. rewrite Hnone. by apply reraise_returned.
    - eapply (client_keeps_fresh_block fn (alloc w));
        [by apply wf_alloc | done | exact Hrun]. }
  rewrite (statement_run _ _ _ _ _ _ Hinner); [done|].
  eapply (client_keeps_fresh_block _ w); [done| |exact Hinner].
  by apply client_try_catch_finally.
Qed.

(** X18: a result of [CatchWithReturn] that is not nil means that the handler
    ran: the block was unhandled, its payload satisfied the type argument, the
    handler returned that result, and the block is now handled.  The test
    [if result != nil] of the README and of demo 4 is sound. *)
Theorem CatchWithReturn_result_means_handled T tb (h : val → M any) w r tb' w' :
  CatchWithReturn T tb h w = (Normal (Some r, tb'), w') →
  ∃ p v w1,
    tb = Some p ∧ tb' = Some p
    ∧ Unhandled (deref w p) v ∧ satisfies (type_of v) T = true
    ∧ h v w = (Normal (Some r), w1)
    ∧ w' = (store_handled p w1).2 ∧ Handled (deref w' p).
Proof.
  destruct tb as [p|]; [|discriminate].
  destruct (dispatch_cases T (deref w p)) as [(v & Hu & Hs)|Hp].
  - rewrite (CatchWithReturn_fires _ _ _ _ _ Hu Hs). unfold_monad.
    destruct (h v w) as [[r'|e] w1] eqn:Hh; [|discriminate].
    intros [= -> <- <-]. exists p, v, w1. split_and!; try done.
    apply (f_equal handled (deref_store_handled w1 p)).
  - rewrite CatchWithReturn_skips; [discriminate|].
    intros v. apply passes_mismatch. unfold passes. tauto.
Qed.

End Composition.

(** * The first version of [Try] *)

Section OriginalTry.
Context `{U : Universe} {S : Type}.
Implicit Types (w : world S) (p : loc) (tb : ptr).
Local Abbreviation M := (M S).
Local Abbreviation deferred := (deferred S).

Lemma Try_original_run (fn : M unit) w o w2 :
  fn (alloc w) = (o, w2) →
  Try_original fn w
  = (Normal (match o with Normal _ => Some (fresh_loc w) | Panicking _ => None end),
     if not_nil (recovered o)
     then (store_err (fresh_loc w) (recovered o) w2).2 else w2).
Proof.
  intros Hfn. unfold Try_original, new_block, defer_recover_result.
  unfold_monad. rewrite Hfn. by destruct o as [[]|[v|]].
Qed.

(** X10: in examples/main_original.go a failure raised inside [Try] is lost.
    The deferred function records it in the block, but [Try] then returns nil
    instead of the block; the chain that follows starts on nil, so it calls
    no handler, and [Finally] re-raises nothing: the statement does what the
    cleanup does. *)
Theorem Try_original_loses_the_failure (fn : M unit) w r w2 :
  fn (alloc w) = (Panicking r, w2) →
  Try_original fn w
  = (Normal None,
     if not_nil r then (store_err (fresh_loc w) r w2).2 else w2)
  ∧ (∀ cleanup : deferred,
       try_catch_finally_original fn [] cleanup w
       = invoke cleanup
           (if not_nil r then (store_err (fresh_loc w) r w2).2 else w2))
  ∧ (∀ (s : stage) (c : list stage) (cleanup : deferred),
       try_catch_finally_original fn (s :: c) cleanup w
       = invoke cleanup
           (alloc (if not_nil r then (store_err (fresh_loc w) r w2).2 else w2))).
Proof.
  intros Hfn. pose proof (Try_original_run _ _ _ _ Hfn) as Ht.
  cbn [recovered] in Ht. split_and!; [done|..].
  - intros cleanup. unfold try_catch_finally_original. unfold_monad.
    by rewrite Ht.
  - intros s c cleanup. unfold try_catch_finally_original. unfold_monad.
    rewrite Ht, run_chain_nil. apply Finally_settled, unhandled_alloc_fresh.
Qed.

(** X11: when the computation returns, the first version of [Try] returns the
    same block in the same world as the one of the package, and the
    statements built on them agree. *)
Theorem Try_original_agrees_on_return (fn : M unit) (c : list stage)
    (cleanup : deferred) w w' :
  fn (alloc w) = (Normal (), w') →
  Try_original fn w = Try fn w
  ∧ try_catch_finally_original fn c cleanup w = try_catch_finally fn c cleanup w.
Proof.
  intros Hfn.
  assert (Try_original fn w = Try fn w) as Ht
    by (by rewrite (Try_original_run _ _ _ _ Hfn), (Try_run _ _ _ _ Hfn)).
  split; [done|].
  unfold try_catch_finally_original, try_catch_finally. unfold_monad.
  by rewrite Ht.
Qed.

End OriginalTry.

(** * The demo program *)

Section DemoProperties.
Variable np : option go_val.
Variable Atoi : string → Z * option go_val.
Variable Error : go_val → string.
Variable fmt_v : option go_val → string.

#[local] Hint Extern 0 Universe => exact (demo.runtime np) : typeclass_instances.
Local Abbreviation Printf := (demo.Printf np).
Local Abbreviation Println := (demo.Println np).
Local Abbreviation nl := demo.nl.

Implicit Types (w : world (U := demo.runtime np) (list string)).

(** Evaluates a statement whose payload is known: picks the stage, runs the
    handler and the cleanup on the output. *)
Ltac run_statement :=
  cbn; repeat (case_bool_decide; try done);
  unfold invoke, plain, demo.Printf, demo.Println, lift; unfold_monad; cbn;
  rewrite <- ?app_assoc; try done.

Lemma Printf_run (text : string) w :
  Printf text w = (Normal (), {| heap := heap w; user := (user w ++ [text])%list |}).
Proof. done. Qed.

Lemma deref_same_heap {S} (w w' : world (U := demo.runtime np) S) p :
  heap w' = heap w → deref w' p = deref w p.
Proof. unfold deref. by intros ->. Qed.

Lemma order_steps_run (userID orderData : string) w :
  demo.order_steps np userID orderData w
  = if bool_decide (userID = "") then
      (Panicking (Some (VValidationError
         (errors.NewValidationError "userID" "user ID is required" 2001))), w)
    else if bool_decide (userID = "blocked_user") then
      (Panicking (Some (VDatabaseError
         (errors.NewDatabaseError "SELECT" "users" "user account blocked"))), w)
    else if bool_decide (orderData = "payment_failed") then
      (Panicking (Some (VNetworkError
         (errors.NewNetworkError "https://payment.api.com" 402))), w)
    else if bool_decide (orderData = "insufficient_stock") then
      (Panicking (Some (VBusinessLogicError
         (errors.NewBusinessLogicError "inventory_check"
            "requested quantity exceeds available stock"))), w)
    else
      (Normal (),
       {| heap := heap w;
          user := (user w ++ ["  ✓ Order processed successfully for user: "
                              +:+ userID +:+ nl])%list |}).
Proof.
  unfold demo.order_steps, Throw, gopanic. unfold_monad.
  by repeat case_bool_decide.
Qed.

(** X12: [processUserOrder] never panics.  For every user and order it prints
    one line, that of the first check of the order that fails or else the
    success line, then the completion line, and returns; the [CatchAny] stage
    and the re-raise of [Finally] are never reached. *)
Theorem processUserOrder_reports_and_returns (now userID orderData : string) w :
  (demo.processUserOrder np fmt_v now userID orderData w).1 = Normal ()
  ∧ user (demo.processUserOrder np fmt_v now userID orderData w).2
    = (user w
       ++ [ demo.order_report userID orderData;
            "  📝 Order processing completed for user: " +:+ userID
            +:+ " at " +:+ now +:+ nl ])%list.
Proof.
  unfold demo.processUserOrder, demo.order_report.
  destruct (demo.order_steps np userID orderData (alloc w)) as [o w2] eqn:Hrun.
  pose proof Hrun as E. rewrite order_steps_run in E.
  assert (deref w2 (fresh_loc w) = zero_block) as Hz.
  { rewrite <- (deref_alloc_fresh w). apply deref_same_heap.
    by repeat case_bool_decide; injection E as <- <-. }
  rewrite (statement_run _ _ _ _ _ _ Hrun Hz). clear Hrun Hz.
  repeat case_bool_decide; injection E as <- <-; run_statement.
Qed.

(** X13: [validateUser] has no effect of its own, returns exactly for a name
    that is not empty, an age from 0 to 150 and an email other than
    ["invalid"], and otherwise raises the [ValidationError] of the first check
    that fails, in the order name, age, email. *)
Theorem validateUser_reports_first_invalid_field {S} (name email : string)
    (age : Z) (w : world (U := demo.runtime np) S) :
  (demo.validateUser np name email age w).2 = w
  ∧ ((demo.validateUser np name email age w).1 = Normal ()
     ↔ name ≠ "" ∧ (0 ≤ age ≤ 150)%Z ∧ email ≠ "invalid")
  ∧ ∀ e, (demo.validateUser np name email age w).1 = Panicking e →
      ∃ err, e = Some (VValidationError err)
        ∧ errors.Field err =
            (if bool_decide (name = "") then "name"
             else if bool_decide (0 ≤ age ≤ 150)%Z then "email" else "age")
        ∧ errors.Code err =
            (if bool_decide (name = "") then 1001
             else if bool_decide (0 ≤ age ≤ 150)%Z then 1003 else 1002)%Z.
Proof.
  unfold demo.validateUser, Throw, gopanic. unfold_monad.
  repeat case_bool_decide; cbn; split_and!; try done;
    first [ split; [first [done | intros _; split_and!; first [done | lia]]
                   | intros (? & ? & ?); first [done | lia]]
          | intros e [= <-]; first [exfalso; lia | by eexists] ].
Qed.

Lemma validateUser_run {S} (name email : string) (age : Z)
    (w : world (U := demo.runtime np) S) :
  ∃ o, demo.validateUser np name email age w = (o, w)
       ∧ (recovered o = None
          ∨ ∃ err, recovered o = Some (VValidationError err)).
Proof.
  unfold demo.validateUser, Throw, gopanic. unfold_monad.
  repeat case_bool_decide; cbn; eauto.
Qed.

Lemma accessDatabase_run {S} (operation : string)
    (w : world (U := demo.runtime np) S) :
  ∃ o, demo.accessDatabase np operation w = (o, w)
       ∧ (recovered o = None
          ∨ ∃ err, recovered o = Some (VDatabaseError err)).
Proof.
  unfold demo.accessDatabase, Throw, gopanic. unfold_monad.
  repeat case_bool_decide; cbn; eauto.
Qed.

Lemma callExternalAPI_run {S} (url : string)
    (w : world (U := demo.runtime np) S) :
  ∃ o, demo.callExternalAPI np url w = (o, w)
       ∧ (recovered o = None
          ∨ ∃ err, recovered o = Some (VNetworkError err)).
Proof.
  unfold demo.callExternalAPI, Throw, gopanic. unfold_monad.
  repeat case_bool_decide; cbn; eauto.
Qed.

Lemma processOrder_run {S} (orderType : string)
    (w : world (U := demo.runtime np) S) :
  ∃ o, demo.processOrder np orderType w = (o, w)
       ∧ (recovered o = None
          ∨ ∃ err, recovered o = Some (VBusinessLogicError err)).
Proof.
  unfold demo.processOrder, Throw, gopanic. unfold_monad.
  repeat case_bool_decide; cbn; eauto.
Qed.

(** A scenario of demo 2 on a function that leaves the world alone and raises
    nothing but the four records of package [errors]. *)
Lemma demo2_scenario_run (name : string) (fn : M (list string) ()) w o :
  (∀ w', fn w' = (o, w')) →
  (recovered o = None
   ∨ (∃ err, recovered o = Some (VValidationError err))
   ∨ (∃ err, recovered o = Some (VDatabaseError err))
   ∨ (∃ err, recovered o = Some (VNetworkError err))
   ∨ (∃ err, recovered o = Some (VBusinessLogicError err))) →
  demo.handled_by_demo2 np name fn w.
Proof.
  intros Hfn Ho. unfold demo.handled_by_demo2, demo.demo2_scenario.
  unfold_monad. rewrite Printf_run.
  rewrite (statement_run _ _ _ _ _ _ (Hfn _) (deref_alloc_fresh _)).
  destruct Ho as [->|[[err ->]|[[err ->]|[[err ->]|[err ->]]]]];
    run_statement;
    try (match goal with
         | |- context [errors.Timeout ?e] => destruct (errors.Timeout e)
         end; run_statement);
    (split; [done|]);
    first [ exists []; split; [done | cbn; lia]
          | eexists [_]; split; [done | cbn; lia] ].
Qed.

(** X14: the chain of demo 2 handles whatever the business functions raise.
    For every argument of [validateUser], [accessDatabase], [callExternalAPI]
    and [processOrder] the scenario prints its header, at most one handler
    line and the completion line, and returns. *)
Theorem demo2_handles_the_business_functions (scenario : string) w :
  (∀ name email age,
     demo.handled_by_demo2 np scenario (demo.validateUser np name email age) w)
  ∧ (∀ operation,
       demo.handled_by_demo2 np scenario (demo.accessDatabase np operation) w)
  ∧ (∀ url,
       demo.handled_by_demo2 np scenario (demo.callExternalAPI np url) w)
  ∧ (∀ orderType,
       demo.handled_by_demo2 np scenario (demo.processOrder np orderType) w).
Proof.
  split_and!.
  - intros name email age.
    destruct (validateUser_run name email age w) as (o & Ho & Hr).
    apply (demo2_scenario_run _ _ _ o); [|tauto].
    intros w'. destruct (validateUser_run name email age w') as (o' & Ho' & _).
    revert Ho Ho'. unfold demo.validateUser, Throw, gopanic. unfold_monad.
    repeat case_bool_decide; cbn; congruence.
  - intros operation.
    destruct (accessDatabase_run operation w) as (o & Ho & Hr).
    apply (demo2_scenario_run _ _ _ o); [|tauto].
    intros w'. revert Ho. unfold demo.accessDatabase, Throw, gopanic.
    unfold_monad. repeat case_bool_decide; cbn; congruence.
  - intros url.
    destruct (callExternalAPI_run url w) as (o & Ho & Hr).
    apply (demo2_scenario_run _ _ _ o); [|tauto].
    intros w'. revert Ho. unfold demo.callExternalAPI, Throw, gopanic.
    unfold_monad. repeat case_bool_decide; cbn; congruence.
  - intros orderType.
    destruct (processOrder_run orderType w) as (o & Ho & Hr).
    apply (demo2_scenario_run _ _ _ o); [|tauto].
    intros w'. revert Ho. unfold demo.processOrder, Throw, gopanic.
    unfold_monad. repeat case_bool_decide; cbn; congruence.
Qed.

Section ParseNumber.

(** The second result of [strconv.Atoi] has the static type [error]: when it
    is not nil, its dynamic type implements [error]. *)
Hypothesis Atoi_error :
  ∀ s e, (Atoi s).2 = Some e → go_implements (go_type_of e) IError = true.

Lemma parseNumber_run {S} (s : string) (w : world (U := demo.runtime np) S) :
  demo.parseNumber np Atoi s w
  = (if bool_decide (s = "invalid") then
       Panicking (Some (VString "invalid number format"))
     else match (Atoi s).2 with
          | Some e => Panicking (Some e)
          | None => Normal (Atoi s).1
          end, w).
Proof.
  unfold demo.parseNumber, Throw, gopanic. unfold_monad.
  case_bool_decide; [done|]. by destruct (Atoi s).2.
Qed.

(** X15: demo 3 never reaches its [CatchAny] stage.  [parseNumber] raises a
    string for ["invalid"] and otherwise the error of [strconv.Atoi], so for
    every input the scenario prints the header, the line of [Catch[string]] or
    of [Catch[error]] when the parse fails, and the completion line, and
    returns. *)
Theorem demo3_never_reaches_CatchAny (name s : string) w :
  (demo.demo3_scenario np Atoi Error fmt_v name s w).1 = Normal ()
  ∧ user (demo.demo3_scenario np Atoi Error fmt_v name s w).2
    = (user w
       ++ [nl +:+ "--- Testing " +:+ name +:+ " ---" +:+ nl]
       ++ (if bool_decide (s = "invalid") then
             ["✓ String error: invalid number format" +:+ nl]
           else match (Atoi s).2 with
                | Some e => ["✓ Standard error: " +:+ Error e +:+ nl]
                | None => []
                end)
       ++ ["  Parsing attempt completed" +:+ nl])%list.
Proof.
  unfold demo.demo3_scenario. unfold_monad. rewrite Printf_run.
  set (w1 := {| heap := heap w; user := _ |}).
  destruct ((demo.parseNumber np Atoi s;; mret ()) (alloc w1))
    as [o w2] eqn:Hrun.
  pose proof Hrun as E. unfold_monad. rewrite parseNumber_run in E.
  assert (w2 = alloc w1) as ->.
  { by case_bool_decide; [|destruct (Atoi s).2]; injection E as <- <-. }
  rewrite (statement_run _ _ _ _ _ _ Hrun (deref_alloc_fresh _)). clear Hrun.
  case_bool_decide.
  - injection E as <-. run_statement.
  - destruct (Atoi s).2 as [e|] eqn:He; injection E as <-; [|run_statement].
    pose proof (Atoi_error _ _ He) as Hi. cbn.
    case_bool_decide as Ht; [by rewrite Ht in Hi|].
    cbn in Hi. rewrite Hi. run_statement.
Qed.

End ParseNumber.

End DemoProperties.

(** * Examples for the further properties *)

Lemma wider_error_stage (h1 h2 : go_val → M (list string) ()) (v : go_val) :
  accepts (StCatch (Concrete TValidationError) h2) v →
  accepts (StCatch (Interface IError) h1) v.
Proof. rewrite !accepts_StCatch. by destruct v. Qed.

Lemma disjoint_int_string (h1 h2 : go_val → M (list string) ()) (v : go_val) :
  accepts (StCatch (Concrete TInt) h1) v →
  accepts (StCatch (Concrete TString) h2) v → False.
Proof. rewrite !accepts_StCatch. by destruct v. Qed.

Lemma chain_returns_the_block_it_was_given_witness :
  run_chain (Some 0) workflow_chain (raised name_required)
  = (Normal (Some 0),
     {| heap := {[ 0 := {| err := Some name_required; handled := true |} ]};
        user := ["validation_handler_called"] |})
  ∧ Some 0 = Some 0.
Proof.
  split; [reflexivity|].
  exact (chain_returns_the_block_it_was_given 0 workflow_chain
           (raised name_required) (Some 0) _ eq_refl).
Defined.

Lemma stage_after_wider_stage_is_dead_witness :
  run_chain (Some 0) error_first_chain (raised name_required)
  = run_chain (Some 0)
      [ StCatch (Interface IError) (λ _, say "error");
        StCatchAny (λ _, say "any") ]
      (raised name_required).
Proof.
  exact (stage_after_wider_stage_is_dead
           (StCatch (Interface IError) (λ _, say "error"))
           (StCatch (Concrete TValidationError) (λ _, say "validation"))
           [] [] [StCatchAny (λ _, say "any")] (Some 0) (raised name_required)
           (wider_error_stage _ _)).
Defined.

Lemma disjoint_stages_commute_witness :
  run_chain (Some 0)
    [ StCatch (Concrete TInt) (λ _, say "intHandlerCalled");
      StCatch (Concrete TString) (λ _, say "stringHandlerCalled") ]
    (raised (VString "test error"))
  = run_chain (Some 0)
      [ StCatch (Concrete TString) (λ _, say "stringHandlerCalled");
        StCatch (Concrete TInt) (λ _, say "intHandlerCalled") ]
      (raised (VString "test error")).
Proof.
  exact (disjoint_stages_commute
           (StCatch (Concrete TInt) (λ _, say "intHandlerCalled"))
           (StCatch (Concrete TString) (λ _, say "stringHandlerCalled"))
           [] [] (Some 0) (raised (VString "test error"))
           (disjoint_int_string _ _)).
Defined.

Lemma Finally_after_CatchAny_only_cleans_witness :
  run_chain (Some 0) (workflow_chain ++ [StCatchAny (λ _, say "any")])
    (raised age_limit)
  = (Normal (Some 0),
     {| heap := {[ 0 := {| err := Some age_limit; handled := true |} ]};
        user := ["any"] |})
  ∧ Finally (Some 0) (plain (say "cleanup"))
      {| heap := {[ 0 := {| err := Some age_limit; handled := true |} ]};
         user := ["any"] |}
    = say "cleanup"
        {| heap := {[ 0 := {| err := Some age_limit; handled := true |} ]};
           user := ["any"] |}.
Proof.
  split; [reflexivity|].
  exact (Finally_after_CatchAny_only_cleans (Some 0) workflow_chain
           (λ _, say "any") (plain (say "cleanup")) (raised age_limit)
           (Some 0) _ eq_refl).
Defined.

Lemma cleanup_panic_replaces_failure_witness :
  Unhandled (deref (raised name_required) 0) name_required
  ∧ Finally (Some 0) (plain (Throw (Some (VString "cleanup failed"))))
      (raised name_required)
    = (Panicking (Some (VString "cleanup failed")), raised name_required).
Proof.
  split; [by split|].
  exact (cleanup_panic_replaces_failure (Some 0)
           (plain (Throw (Some (VString "cleanup failed"))))
           (raised name_required)
           (Some (VString "cleanup failed")) (raised name_required)
           (λ _, eq_refl)).
Defined.

Lemma Catch_of_universal_type_is_CatchAny_witness :
  Catch (Interface IAny) (Some 0) (λ _, say "any") (raised name_required)
  = CatchAny (Some 0) (as_any_handler (λ _, say "any")) (raised name_required).
Proof.
  exact (Catch_of_universal_type_is_CatchAny (Interface IAny) (Some 0)
           (λ _, say "any") (raised name_required) (λ t, eq_refl)).
Defined.

Lemma unhandled_failure_reaches_enclosing_statement_witness :
  try_catch_finally
    (try_catch_finally (Throw (Some age_limit))
       [StCatch (Concrete TValidationError) (λ _, say "validation")]
       (plain (say "inner cleanup")))
    [StCatch (Concrete TBusinessLogicError) (λ _, say "business")]
    (plain (say "outer cleanup")) start
  = (Normal (),
     {| heap := {[ 0 := {| err := Some age_limit; handled := true |};
                   1 := {| err := Some age_limit; handled := false |} ]};
        user := ["inner cleanup"; "business"; "outer cleanup"] |}).
Proof.
  refine (eq_trans
    (unhandled_failure_reaches_enclosing_statement
       (Throw (Some age_limit)) age_limit
       [StCatch (Concrete TValidationError) (λ _, say "validation")]
       [StCatch (Concrete TBusinessLogicError) (λ _, say "business")]
       (plain (say "inner cleanup")) (plain (say "outer cleanup")) start
       (alloc (alloc start))
       {| heap := {[ 0 := zero_block;
                     1 := {| err := Some age_limit; handled := false |} ]};
          user := ["inner cleanup"] |}
       wf_start (client_Throw _) _ (client_plain _ (client_say _))
       eq_refl eq_refl eq_refl) _);
    [|reflexivity].
  repeat constructor.
Defined.

Lemma Try_original_loses_the_failure_witness :
  Try_original (Throw (Some name_required)) start
  = (Normal None,
     {| heap := {[ 0 := {| err := Some name_required; handled := false |} ]};
        user := [] |})
  ∧ try_catch_finally_original (Throw (Some name_required)) workflow_chain
      (plain (say "finally_executed")) start
    = (Normal (),
       {| heap := {[ 0 := {| err := Some name_required; handled := false |};
                     1 := zero_block ]};
          user := ["finally_executed"] |}).
Proof.
  pose proof (Try_original_loses_the_failure (Throw (Some name_required))
                start (Some name_required) (alloc start) eq_refl)
    as (Ht & _ & Hc).
  split; [exact Ht|].
  exact (Hc (StCatch (Concrete TDatabaseError)
               (λ _, say "database_handler_called"))
            [StCatch (Concrete TValidationError)
               (λ _, say "validation_handler_called")]
            (plain (say "finally_executed"))).
Defined.

Lemma Try_original_agrees_on_return_witness :
  Try_original (say "try_block_executed") start
  = Try (say "try_block_executed") start
  ∧ try_catch_finally_original (say "try_block_executed") workflow_chain
      (plain (say "finally_executed")) start
    = try_catch_finally (say "try_block_executed") workflow_chain
        (plain (say "finally_executed")) start.
Proof.
  exact (Try_original_agrees_on_return (say "try_block_executed")
           workflow_chain (plain (say "finally_executed")) start
           {| heap := {[ 0 := zero_block ]}; user := ["try_block_executed"] |}
           eq_refl).
Defined.

Lemma Atoi_sample_error (s : string) (e : go_val) :
  (stdlib_sample.Atoi s).2 = Some e → go_implements (go_type_of e) IError = true.
Proof.
  unfold stdlib_sample.Atoi. case_bool_decide; [done|]. by intros [= <-].
Qed.

Lemma demo3_never_reaches_CatchAny_witness :
  (demo.demo3_scenario None stdlib_sample.Atoi stdlib_sample.Error
     stdlib_sample.fmt_v "Standard error" "abc" start).1
  = Normal ()
  ∧ user (demo.demo3_scenario None stdlib_sample.Atoi stdlib_sample.Error
            stdlib_sample.fmt_v "Standard error" "abc" start).2
    = [ demo.nl +:+ "--- Testing Standard error ---" +:+ demo.nl;
        "✓ Standard error: invalid syntax" +:+ demo.nl;
        "  Parsing attempt completed" +:+ demo.nl ].
Proof.
  exact (demo3_never_reaches_CatchAny None stdlib_sample.Atoi
           stdlib_sample.Error stdlib_sample.fmt_v Atoi_sample_error
           "Standard error" "abc" start).
Defined.

(** * The messages of the payloads *)

Section Messages.
Import errors_Error.

Lemma TestValidationError :
  ValidationError (errors.NewValidationError "email" "invalid format" 1001)
  = "validation error [1001] on field 'email': invalid format".
Proof. reflexivity. Qed.

Lemma TestDatabaseError :
  DatabaseError (errors.NewDatabaseError "SELECT" "users" "connection failed")
  = "database error during SELECT on table 'users': connection failed".
Proof. reflexivity. Qed.

Lemma TestNetworkError :
  NetworkError (errors.NewNetworkError "http://example.com" 404)
  = "network error 404 when accessing http://example.com".
Proof. reflexivity. Qed.

Lemma TestNetworkTimeoutError :
  NetworkError (errors.NewNetworkTimeoutError "http://example.com")
  = "network timeout when accessing http://example.com".
Proof. reflexivity. Qed.

Lemma TestBusinessLogicError :
  BusinessLogicError (errors.NewBusinessLogicError "age_limit" "must be over 18")
  = "business rule violation: age_limit - must be over 18".
Proof. reflexivity. Qed.

Lemma append_cons (a : Ascii.ascii) (p s : string) :
  String a p +:+ s = String a (p +:+ s).
Proof. reflexivity. Qed.

Lemma append_nil (s : string) : "" +:+ s = s.
Proof. reflexivity. Qed.

Lemma numeral_digit (d : N) : numeral_char (pretty_N_char d).
Proof. right. by exists d. Qed.

Lemma pretty_N_go_numeral (x : N) (s : string) :
  numeral s → numeral (pretty_N_go x s).
Proof.
  revert s. induction (N.lt_wf_0 x) as [x _ IH]; intros s Hs.
  assert (x = 0 ∨ 0 < x)%N as [->|Hx] by lia.
  - by rewrite pretty_N_go_0.
  - rewrite pretty_N_go_step by done. apply IH.
    + by apply N.div_lt.
    + split; [apply numeral_digit | done].
Qed.

Lemma pretty_N_numeral (x : N) : numeral (pretty x).
Proof.
  unfold pretty, pretty_N. case_decide.
  - split; [apply (numeral_digit 0) | done].
  - by apply pretty_N_go_numeral.
Qed.

Lemma pretty_Z_numeral (z : Z) : numeral (pretty z).
Proof.
  destruct z as [|x|x]; unfold pretty, pretty_Z.
  - split; [apply (numeral_digit 0) | done].
  - apply (pretty_N_numeral (N.pos x)).
  - split; [by left | apply (pretty_N_numeral (N.pos x))].
Qed.

(** A numeral followed by a character that no numeral contains ends where
    that character stands. *)
Lemma numeral_prefix_inj (x y : string) (c : Ascii.ascii) (s s' : string) :
  numeral x → numeral y → ¬ numeral_char c →
  x +:+ String c s = y +:+ String c s' → x = y ∧ s = s'.
Proof.
  intros Hx Hy Hc. revert y Hy.
  induction x as [|a x IH]; intros [|b y] Hy; cbn.
  - by intros [= ->].
  - intros [= -> _]. by destruct Hc, Hy.
  - intros [= -> _]. by destruct Hc, Hx.
  - intros [= -> E]. destruct Hx as [_ Hx], Hy as [_ Hy].
    by destruct (IH Hx y Hy E) as [-> ->].
Qed.

Lemma space_not_numeral : ¬ numeral_char (Ascii.ascii_of_nat 32).
Proof.
  intros [H|[d H]]; [discriminate|].
  revert H. unfold pretty_N_char. by repeat case_match.
Qed.

Lemma bracket_not_numeral : ¬ numeral_char (Ascii.ascii_of_nat 93).
Proof.
  intros [H|[d H]]; [discriminate|].
  revert H. unfold pretty_N_char. by repeat case_match.
Qed.

(** X16: the message of a [NetworkError] tells a timeout from a status error
    and determines the URL and, for a status error, the status code; the
    status code of a timeout is not in the message. *)
Theorem NetworkError_message_determines_the_error (e1 e2 : errors.NetworkError) :
  NetworkError e1 = NetworkError e2 →
  errors.Timeout e1 = errors.Timeout e2
  ∧ errors.URL e1 = errors.URL e2
  ∧ (errors.Timeout e1 = false → errors.StatusCode e1 = errors.StatusCode e2).
Proof.
  destruct e1 as [u1 c1 [|]], e2 as [u2 c2 [|]]; unfold NetworkError; cbn;
    rewrite ?append_cons, ?append_nil.
  - intros [= ->]. done.
  - intros [=].
  - intros [=].
  - intros [= E].
    destruct (numeral_prefix_inj _ _ _ _ _ (pretty_Z_numeral c1)
                (pretty_Z_numeral c2) space_not_numeral E) as [Hc [= ->]].
    by apply (inj pretty) in Hc as ->.
Qed.

(** X17: the message of a [ValidationError] determines its code. *)
Theorem ValidationError_message_determines_the_code
    (e1 e2 : errors.ValidationError) :
  ValidationError e1 = ValidationError e2 → errors.Code e1 = errors.Code e2.
Proof.
  destruct e1 as [f1 m1 c1], e2 as [f2 m2 c2]; unfold ValidationError; cbn;
    rewrite ?append_cons, ?append_nil.
  intros [= E].
  destruct (numeral_prefix_inj _ _ _ _ _ (pretty_Z_numeral c1)
              (pretty_Z_numeral c2) bracket_not_numeral E) as [Hc _].
  by apply (inj pretty) in Hc.
Qed.

End Messages.

Lemma NetworkError_message_determines_the_error_witness :
  errors_Error.NetworkError
    {| errors.URL := "http://example.com"; errors.StatusCode := 0;
       errors.Timeout := true |}
  = errors_Error.NetworkError
      {| errors.URL := "http://example.com"; errors.StatusCode := 504;
         errors.Timeout := true |}
  ∧ true = true
  ∧ "http://example.com" = "http://example.com"
  ∧ (true = false → 0%Z = 504%Z).
Proof.
  split; [reflexivity|].
  exact (NetworkError_message_determines_the_error
           {| errors.URL := "http://example.com"; errors.StatusCode := 0;
              errors.Timeout := true |}
           {| errors.URL := "http://example.com"; errors.StatusCode := 504;
              errors.Timeout := true |}
           eq_refl).
Defined.

(** The field and the message are not determined: these two errors have the
    same message. *)
Lemma ValidationError_message_determines_the_code_witness :
  errors_Error.ValidationError (errors.NewValidationError "a': b" "c" 1001)
  = errors_Error.ValidationError (errors.NewValidationError "a" "b': c" 1001)
  ∧ 1001%Z = 1001%Z.
Proof.
  split; [reflexivity|].
  exact (ValidationError_message_determines_the_code
           (errors.NewValidationError "a': b" "c" 1001)
           (errors.NewValidationError "a" "b': c" 1001) eq_refl).
Defined.

Lemma CatchWithReturn_result_means_handled_witness :
  CatchWithReturn (Concrete TValidationError) (Some 0) (λ v, mret (Some v))
    (raised name_required)
  = (Normal (Some name_required, Some 0), settled)
  ∧ Handled (deref settled 0).
Proof.
  split; [reflexivity|].
  pose proof (CatchWithReturn_result_means_handled
                (Concrete TValidationError) (Some 0) (λ v, mret (Some v))
                (raised name_required) name_required (Some 0) settled eq_refl)
    as (p & v & w1 & [= <-] & _ & _ & _ & _ & _ & Hh).
  exact Hh.
Defined.
